(** * ChessBI ingestion core: validator store, resilient client, orchestrator

    A shallow embedding of [src/ingest/etag_cache.py],
    [src/ingest/chesscom_client.py] and [src/ingest/chesscom_ingest.py],
    and the properties of the specification that are stated about them.

    Conventions of the embedding.
    - Python [int] is [Z]; Python [float] is idealised as an exact rational
      [Q] (no rounding, no overflow).
    - Python [str] is [string]; a character stands for the code point of the
      same number, so only code points 0..255 occur.
    - A [dict] with string keys is a [gmap string _]; a [list] is a [list].
    - Exceptions and effects are threaded through a state-and-error monad
      over a [world] that holds the file system, the console and the
      counters of the requests sent and random numbers drawn so far.
    - The Python library is outside the program: [json.dump], [json.load],
      [session.request] and [random.random] are parameters of the embedding
      ([Section Program]). What the program relies on from [time.sleep],
      [int], [str.join], [list.sort], [os.path.join], [re.search] and
      slicing is written out under Builtins.
    - Header names are looked up in the spelling the program uses.
      Directories are not modelled. Limits of the interpreter (recursion
      depth, the length of the digit strings [int] accepts, the longest
      sleep) are not modelled either. *)

From Stdlib Require Import ZArith QArith Qpower Lqa Lia Bool Ascii String List.
From stdpp Require Import gmap strings list fin_maps pretty.

#[local] Set Warnings "-register-all".
#[local] Open Scope Z_scope.

(** ** Python values *)

(** What [json.load] and [response.json()] produce. *)
Inductive json : Type :=
| JNull
| JBool (b : bool)
| JNum (q : Q)
| JStr (s : string)
| JArr (l : list json)
| JObj (d : gmap string json).

(** Exceptions that the three modules raise or let through. *)
Inductive api_message : Type :=
| RateLimitExceeded      (* "Rate limit exceeded after N retries" *)
| ServerErrorAfterRetries (* "Server error after N retries" *)
| ClientErrorResponse    (* "Client error: ..." *)
| UnexpectedStatusCode.  (* "Unexpected status code: ..." *)

Inductive client_message : Type :=
| NetworkErrorAfterRetries (* "Network error after N retries: ..." *)
| RequestFailed            (* "Request failed: ..." *)
| MaxRetriesExhausted      (* "Max retries (N) exhausted" *)
| InvalidJSONResponse      (* "Invalid JSON response from ..." *)
| MissingArchivesField     (* "... missing 'archives' field" *)
| ArchivesNotAList.        (* "... 'archives' is not a list" *)

Inductive PyExn : Type :=
| ChessComAPIError (status : Z) (msg : api_message)
| ChessComClientError (msg : client_message)
| TypeError
| AttributeError
| ValueError
| UnicodeDecodeError
| OSError
| FuelExhausted. (* artefact of the fuel of [retry_loop]; never raised,
                    see [request_with_retry_fuel] *)

Inductive result (A : Type) : Type :=
| Ok (a : A)
| Raise (e : PyExn).
Arguments Ok {A} a.
Arguments Raise {A} e.

(** ** Builtins *)

(** [bool(v)] *)
Definition truthy (v : json) : bool :=
  match v with
  | JNull => false
  | JBool b => b
  | JNum q => negb (Qeq_bool q 0)
  | JStr s => negb (String.eqb s "")
  | JArr l => match l with [] => false | _ => true end
  | JObj d => negb (bool_decide (d = ∅))
  end.

(** [len(v)]; [None] stands for [TypeError]. *)
Definition py_len (v : json) : option Z :=
  match v with
  | JStr s => Some (Z.of_nat (String.length s))
  | JArr l => Some (Z.of_nat (List.length l))
  | JObj d => Some (Z.of_nat (size d))
  | JNull | JBool _ | JNum _ => None
  end.

(** [l[start:]] *)
Definition py_slice_from {A : Type} (start : Z) (l : list A) : list A :=
  let n := Z.of_nat (List.length l) in
  let i := if start <? 0 then Z.max (n + start) 0 else Z.min start n in
  drop (Z.to_nat i) l.

Definition is_digit (c : ascii) : bool :=
  (48 <=? nat_of_ascii c)%nat && (nat_of_ascii c <=? 57)%nat.

Definition digit_value (c : ascii) : Z := Z.of_nat (nat_of_ascii c) - 48.

(** Characters that [str.strip()] and [int()] treat as white space. *)
Definition is_space (c : ascii) : bool :=
  let n := nat_of_ascii c in
  ((9 <=? n) && (n <=? 13) || (28 <=? n) && (n <=? 32)
   || (n =? 133) || (n =? 160))%nat.

Fixpoint digits_value (acc : Z) (cs : list ascii) : option Z :=
  match cs with
  | [] => Some acc
  | c :: cs' =>
      if is_digit c then digits_value (10 * acc + digit_value c) cs'
      else if Ascii.eqb c "_" then
        match cs' with
        | d :: _ => if is_digit d then digits_value acc cs' else None
        | [] => None
        end
      else None
  end.

Definition unsigned_value (cs : list ascii) : option Z :=
  match cs with
  | d :: _ => if is_digit d then digits_value 0 cs else None
  | [] => None
  end.

Fixpoint lstrip (cs : list ascii) : list ascii :=
  match cs with
  | c :: cs' => if is_space c then lstrip cs' else cs
  | [] => []
  end.

Definition strip (cs : list ascii) : list ascii :=
  rev (lstrip (rev (lstrip cs))).

(** [int(s)] in base ten; [None] stands for [ValueError]. *)
Definition py_int (s : string) : option Z :=
  match strip (list_ascii_of_string s) with
  | "+"%char :: cs => unsigned_value cs
  | "-"%char :: cs => Z.opp <$> unsigned_value cs
  | cs => unsigned_value cs
  end.

(** [sep.join(items)]; an item that is [None] makes it raise [TypeError],
    which is the [None] here. *)
Fixpoint str_join (sep : string) (items : list (option string)) : option string :=
  match items with
  | [] => Some EmptyString
  | item :: rest =>
      match item, str_join sep rest with
      | Some s, Some t =>
          Some (match rest with [] => s | _ :: _ => s +:+ sep +:+ t end)
      | _, _ => None
      end
  end.

(** [list.sort()] on strings: ascending by code point. *)
Fixpoint sorted_insert (x : string) (l : list string) : list string :=
  match l with
  | [] => [x]
  | y :: l' => if String.leb x y then x :: l else y :: sorted_insert x l'
  end.

Definition list_sort (l : list string) : list string :=
  foldr sorted_insert [] l.

(** [os.path.join] (posixpath). *)
Definition ends_with_slash (s : string) : bool :=
  match rev (list_ascii_of_string s) with
  | c :: _ => Ascii.eqb c "/"
  | [] => false
  end.

Definition path_join2 (path b : string) : string :=
  if String.prefix "/" b then b
  else if String.eqb path "" || ends_with_slash path then path +:+ b
  else path +:+ "/" +:+ b.

Definition os_path_join (a : string) (ps : list string) : string :=
  foldl path_join2 a ps.

(** ** The world outside the program *)

(** A path of the file system that exists. Directories are not modelled:
    [mkdir(parents=True, exist_ok=True)] always succeeds. *)
Inductive file : Type :=
| NoAccess  (* [open] raises [OSError]: a directory, a missing permission *)
| NotUtf8   (* opens, but reading it as UTF-8 raises [UnicodeDecodeError] *)
| Text (content : string).

(** The lines of standard output that the claims mention. *)
Inductive log_line : Type :=
| WarnSkipped (url : string)   (* "Warning: Could not parse year/month from {url}, skipping" *)
| SaidUnchanged (month : string)          (* "unchanged (304)" *)
| SaidFetched (month : string) (games : Z) (* "fetched ({game_count} games)" *)
| SaidUnexpected (status : Z). (* "unexpected status {status_code}" *)

Record world : Type := World {
  fs : gmap string file;          (* the file system *)
  requests_sent : nat;            (* calls of [session.request] so far *)
  randoms_drawn : nat;            (* calls of [random.random] so far *)
  slept : list Q;                 (* [time.sleep] calls, latest first *)
  writes : list (string * json);  (* [_write_json] calls, latest first *)
  console : list log_line;        (* printed lines, latest first *)
}.

Definition set_fs (f : gmap string file) (w : world) : world :=
  World f (requests_sent w) (randoms_drawn w) (slept w) (writes w) (console w).
Definition count_request (w : world) : world :=
  World (fs w) (S (requests_sent w)) (randoms_drawn w) (slept w) (writes w) (console w).
Definition count_random (w : world) : world :=
  World (fs w) (requests_sent w) (S (randoms_drawn w)) (slept w) (writes w) (console w).
Definition add_sleep (secs : Q) (w : world) : world :=
  World (fs w) (requests_sent w) (randoms_drawn w) (secs :: slept w) (writes w) (console w).
Definition add_write (path : string) (data : json) (w : world) : world :=
  World (fs w) (requests_sent w) (randoms_drawn w) (slept w) ((path, data) :: writes w) (console w).
Definition add_line (l : log_line) (w : world) : world :=
  World (fs w) (requests_sent w) (randoms_drawn w) (slept w) (writes w) (l :: console w).

(** ** The monad of the embedding: state [world], errors [PyExn] *)

Definition M (A : Type) : Type := world -> result A * world.

Definition ret {A : Type} (a : A) : M A := fun w => (Ok a, w).
Definition raise {A : Type} (e : PyExn) : M A := fun w => (Raise e, w).
Definition bind {A B : Type} (m : M A) (k : A -> M B) : M B :=
  fun w =>
    match m w with
    | (Ok a, w') => k a w'
    | (Raise e, w') => (Raise e, w')
    end.

Notation "x <-- m ;; k" := (bind m (fun x => k))
  (at level 60, m at next level, right associativity).
Notation "m ;;; k" := (bind m (fun _ => k))
  (at level 60, right associativity).

Definition print (l : log_line) : M unit := fun w => (Ok tt, add_line l w).

(** [time.sleep(secs)]: a negative duration raises [ValueError]. *)
Definition time_sleep (secs : Q) : M unit :=
  fun w => if Qle_bool 0 secs then (Ok tt, add_sleep secs w) else (Raise ValueError, w).

(** ** HTTP as [requests] shows it *)

Record request : Type := Request {
  req_method : string;
  req_url : string;
  req_headers : gmap string json;
  req_timeout : Z;
}.

Record response : Type := Response {
  status_code : Z;
  headers : gmap string string;
  text : string;
}.

(** What one call of [session.request] does. *)
Inductive attempt : Type :=
| Responded (r : response)
| Timeout           (* requests.exceptions.Timeout *)
| ConnectionError   (* requests.exceptions.ConnectionError *)
| RequestException. (* any other requests.exceptions.RequestException *)

Record ChessComClient : Type := Client {
  user_agent : string;
  timeout_seconds : Z;
  max_retries : Z;
  backoff_base_seconds : Q;
}.

(** [ChessComClient()] *)
Definition default_client : ChessComClient :=
  Client "ChessBI (contact: unknown)" 30 5 1.

Definition BASE_URL : string := "https://api.chess.com/pub".

(** The summary that a run returns. *)
Record summary : Type := Summary {
  s_username : string;
  s_months_selected : list (option string);
  s_months_fetched : list string;
  s_months_unchanged : list string;
  s_total_games : Z;
  s_out_dir : string;
}.

(** The variables of the loop of [run_chesscom_ingest]. *)
Record progress : Type := Progress {
  etags : gmap string json;
  months_fetched : list string;
  months_unchanged : list string;
  total_games : Z;
}.


(** ** A reference JSON codec

    [json.dump] and [json.load] belong to the Python library, so the
    embedding of the program takes them as parameters. This executable codec
    (objects, arrays, strings, decimal numbers, [null], [true], [false];
    printing as [indent=2] does) instantiates them in the scenarios. *)
Module RefJson.

Definition dq : ascii := "034"%char.
Definition nl : ascii := "010"%char.
Definition bs : ascii := "\"%char.

Definition hex_digit (n : nat) : ascii :=
  nth n (list_ascii_of_string "0123456789abcdef") "0"%char.

Definition hex_value (c : ascii) : option nat :=
  let n := nat_of_ascii c in
  if is_digit c then Some (n - 48)%nat
  else if (97 <=? n)%nat && (n <=? 102)%nat then Some (n - 87)%nat
  else if (65 <=? n)%nat && (n <=? 70)%nat then Some (n - 55)%nat
  else None.

Definition escape_char (c : ascii) : list ascii :=
  let n := nat_of_ascii c in
  if Ascii.eqb c dq then [bs; dq]
  else if Ascii.eqb c bs then [bs; bs]
  else if Ascii.eqb c nl then [bs; "n"%char]
  else if Ascii.eqb c "009" then [bs; "t"%char]
  else if Ascii.eqb c "013" then [bs; "r"%char]
  else if (n <? 32)%nat then
    [bs; "u"%char; "0"%char; "0"%char; hex_digit (n / 16); hex_digit (n mod 16)]
  else [c].

Fixpoint escape (cs : list ascii) : list ascii :=
  match cs with
  | [] => []
  | c :: cs' => escape_char c ++ escape cs'
  end.

Definition quote (s : string) : list ascii :=
  dq :: escape (list_ascii_of_string s) ++ [dq].

Fixpoint fraction_digits (n : nat) (r den : Z) : string :=
  match n with
  | O => ""
  | S n' =>
      if r =? 0 then ""
      else pretty (10 * r / den) +:+ fraction_digits n' (10 * r mod den) den
  end.

Definition dump_number (q : Q) : string :=
  let n := Qnum q in
  let d := Z.pos (Qden q) in
  let a := Z.abs n in
  (if n <? 0 then "-" else "") +:+ pretty (a / d) +:+
  (if a mod d =? 0 then "" else "." +:+ fraction_digits 17 (a mod d) d).

Fixpoint indent (n : nat) : list ascii :=
  match n with O => [] | S n' => " "%char :: " "%char :: indent n' end.

Fixpoint join (sep : list ascii) (items : list (list ascii)) : list ascii :=
  match items with
  | [] => []
  | item :: rest =>
      match rest with
      | [] => item
      | _ :: _ => item ++ sep ++ join sep rest
      end
  end.

Definition lines (level : nat) (open close : ascii) (items : list (list ascii))
  : list ascii :=
  match items with
  | [] => [open; close]
  | _ :: _ =>
      open :: nl :: indent (S level)
      ++ join (","%char :: nl :: indent (S level)) items
      ++ nl :: indent level ++ [close]
  end.

Definition member (key : string) (value : list ascii) : list ascii :=
  quote key ++ ":"%char :: " "%char :: value.

Fixpoint dump (level : nat) (v : json) : list ascii :=
  match v with
  | JNull => list_ascii_of_string "null"
  | JBool true => list_ascii_of_string "true"
  | JBool false => list_ascii_of_string "false"
  | JNum q => list_ascii_of_string (dump_number q)
  | JStr s => quote s
  | JArr l => lines level "[" "]" (map (dump (S level)) l)
  | JObj d =>
      lines level "{" "}"
        (map (fun kv => member kv.1 kv.2) (map_to_list (dump (S level) <$> d)))
  end.

Definition json_dump (v : json) : string := string_of_list_ascii (dump 0 v).

Definition is_ws (c : ascii) : bool :=
  let n := nat_of_ascii c in ((n =? 32) || (n =? 9) || (n =? 10) || (n =? 13))%nat.

Fixpoint skip_ws (cs : list ascii) : list ascii :=
  match cs with
  | c :: cs' => if is_ws c then skip_ws cs' else cs
  | [] => []
  end.

(* the characters of a string literal, after its opening quote *)
Fixpoint parse_chars (acc : list ascii) (cs : list ascii) : option (string * list ascii) :=
  match cs with
  | [] => None
  | c :: cs' =>
      if Ascii.eqb c dq then Some (string_of_list_ascii (rev acc), cs')
      else if Ascii.eqb c bs then
        match cs' with
        | e :: cs'' =>
            if Ascii.eqb e dq || Ascii.eqb e bs || Ascii.eqb e "/" then parse_chars (e :: acc) cs''
            else if Ascii.eqb e "n" then parse_chars (nl :: acc) cs''
            else if Ascii.eqb e "t" then parse_chars ("009"%char :: acc) cs''
            else if Ascii.eqb e "r" then parse_chars ("013"%char :: acc) cs''
            else if Ascii.eqb e "u" then
              match cs'' with
              | h1 :: h2 :: h3 :: h4 :: cs3 =>
                  match hex_value h1, hex_value h2, hex_value h3, hex_value h4 with
                  | Some 0%nat, Some 0%nat, Some a, Some b =>
                      parse_chars (ascii_of_nat (16 * a + b) :: acc) cs3
                  | _, _, _, _ => None
                  end
              | _ => None
              end
            else None
        | [] => None
        end
      else if (nat_of_ascii c <? 32)%nat then None
      else parse_chars (c :: acc) cs'
  end.

Fixpoint take_digits (cs : list ascii) : list ascii * list ascii :=
  match cs with
  | c :: cs' => if is_digit c then let '(ds, r) := take_digits cs' in (c :: ds, r) else ([], cs)
  | [] => ([], [])
  end.

Definition digits_Z (ds : list ascii) : Z :=
  foldl (fun acc c => 10 * acc + digit_value c) 0 ds.

Definition parse_number (cs : list ascii) : option (Q * list ascii) :=
  let '(neg, cs1) := match cs with "-"%char :: r => (true, r) | _ => (false, cs) end in
  let '(ip, cs2) := take_digits cs1 in
  match ip with
  | [] => None
  | _ =>
      let '(fp, cs3) := match cs2 with
                        | "."%char :: r => take_digits r
                        | _ => ([], cs2)
                        end in
      let den := Z.to_pos (10 ^ Z.of_nat (List.length fp)) in
      let num := digits_Z ip * Z.pos den + digits_Z fp in
      Some (Qmake (if neg then - num else num) den, cs3)
  end.

Definition expect (word : string) (v : json) (cs : list ascii) : option (json * list ascii) :=
  let w := list_ascii_of_string word in
  if bool_decide (take (List.length w) cs = w) then Some (v, drop (List.length w) cs) else None.

(** [members] holds the members read so far, the latest first: of two
    members with one key the later one wins. *)
Fixpoint parse_value (fuel : nat) (cs : list ascii) : option (json * list ascii) :=
  match fuel with
  | O => None
  | S fuel' =>
      match skip_ws cs with
      | [] => None
      | c :: r =>
          if Ascii.eqb c dq then
            '(s, r') ← parse_chars [] r; Some (JStr s, r')
          else if Ascii.eqb c "[" then
            match skip_ws r with
            | "]"%char :: r' => Some (JArr [], r')
            | _ => parse_elements fuel' [] r
            end
          else if Ascii.eqb c "{" then
            match skip_ws r with
            | "}"%char :: r' => Some (JObj ∅, r')
            | _ => parse_members fuel' [] r
            end
          else if Ascii.eqb c "n" then expect "null" JNull (c :: r)
          else if Ascii.eqb c "t" then expect "true" (JBool true) (c :: r)
          else if Ascii.eqb c "f" then expect "false" (JBool false) (c :: r)
          else '(q, r') ← parse_number (c :: r); Some (JNum q, r')
      end
  end
with parse_elements (fuel : nat) (acc : list json) (cs : list ascii) : option (json * list ascii) :=
  match fuel with
  | O => None
  | S fuel' =>
      '(v, r) ← parse_value fuel' cs;
      match skip_ws r with
      | ","%char :: r' => parse_elements fuel' (v :: acc) r'
      | "]"%char :: r' => Some (JArr (rev (v :: acc)), r')
      | _ => None
      end
  end
with parse_members (fuel : nat) (members : list (string * json)) (cs : list ascii)
  : option (json * list ascii) :=
  match fuel with
  | O => None
  | S fuel' =>
      match skip_ws cs with
      | c :: r =>
          if Ascii.eqb c dq then
            '(k, r1) ← parse_chars [] r;
            match skip_ws r1 with
            | ":"%char :: r2 =>
                '(v, r3) ← parse_value fuel' r2;
                match skip_ws r3 with
                | ","%char :: r4 => parse_members fuel' ((k, v) :: members) r4
                | "}"%char :: r4 => Some (JObj (list_to_map ((k, v) :: members)), r4)
                | _ => None
                end
            | _ => None
            end
          else None
      | [] => None
      end
  end.

(** [None] stands for [JSONDecodeError]. *)
Definition json_load (s : string) : option json :=
  let cs := list_ascii_of_string s in
  match parse_value (S (List.length cs)) cs with
  | Some (v, r) => match skip_ws r with [] => Some v | _ => None end
  | None => None
  end.

(** JSON text written with apostrophes where JSON has double quotes. *)
Definition json_text (s : string) : string :=
  string_of_list_ascii
    (map (fun c => if Ascii.eqb c "'" then dq else c) (list_ascii_of_string s)).

(** One member of a flat object, and the text between two members, as
    [dump] writes them at the top level. *)
Definition flat_member (kv : string * string) : list ascii :=
  member kv.1 (quote kv.2).

Definition member_separator : list ascii :=
  ","%char :: nl :: indent 1.

End RefJson.

(** ** Scenarios

    Concrete services, caches and stores on which the program is run. *)
Module Scenario.

Definition cache_path : string := ".cache/chesscom_etags.json".
Definition index_url : string :=
  "https://api.chess.com/pub/player/hikaru/games/archives".
Definition month_url (year_month : string) : string :=
  "https://api.chess.com/pub/player/hikaru/games/" +:+ year_month.

Definition reply (status : Z) (hdrs : list (string * string)) (body : string)
  : attempt :=
  Responded (Response status (list_to_map hdrs) (RefJson.json_text body)).

(** A service that answers by URL, whatever the number of the call. *)
Definition service (routes : list (string * attempt)) : nat -> request -> attempt :=
  fun _ req =>
    match List.find (fun route => String.eqb route.1 (req_url req)) routes with
    | Some route => route.2
    | None => reply 404 [] "not found"
    end.

(** [random.random()] always returns one half: no jitter. *)
Definition no_jitter : nat -> Q := fun _ => 0.5%Q.

Definition empty_world : world := World ∅ 0 0 [] [] [].
Definition world_with_cache (content : string) : world :=
  World {[ cache_path := Text (RefJson.json_text content) ]} 0 0 [] [] [].

(** Two months; the body of the first is not JSON. *)
Definition malformed_body : nat -> request -> attempt :=
  service
    [ (index_url,
       reply 200 []
         "{'archives': ['https://api.chess.com/pub/player/hikaru/games/2024/01', 'https://api.chess.com/pub/player/hikaru/games/2024/02']}");
      (month_url "2024/01", reply 200 [("ETag", "v1")] "<html>Bad gateway</html>");
      (month_url "2024/02", reply 200 [("ETag", "v2")] "{'games': [1, 2]}") ]%string.

Definition january : string := month_url "2024/01".
Definition january_index : string :=
  "{'archives': ['https://api.chess.com/pub/player/hikaru/games/2024/01']}".

(** January is unchanged and the service rotates its validator. *)
Definition rotated_validator : nat -> request -> attempt :=
  service [ (index_url, reply 200 [] january_index);
            (january, reply 304 [("ETag", "v2")] "") ]%string.

(** January is unchanged, and the reply has no validator. *)
Definition plain_unchanged : nat -> request -> attempt :=
  service [ (index_url, reply 200 [] january_index);
            (january, reply 304 [] "") ]%string.

(** The index lists an archive whose URL does not end in a month. *)
Definition odd_index : nat -> request -> attempt :=
  service
    [ (index_url,
       reply 200 [] "{'archives': ['https://api.chess.com/pub/player/hikaru/games/latest']}")
    ]%string.

(** Every request is throttled, with a negative [Retry-After]. *)
Definition throttled_negative : nat -> request -> attempt :=
  fun _ _ => reply 429 [("Retry-After", "-1")]%string "".

(** Every request is throttled, and told to wait two seconds. *)
Definition throttled : nat -> request -> attempt :=
  fun _ _ => reply 429 [("Retry-After", "2")]%string "".

(** Five months; the third is unchanged, the fourth has three games and a
    new validator, the fifth has no [games] field. *)
Definition five_months : nat -> request -> attempt :=
  service
    [ (index_url,
       reply 200 []
         "{'archives': ['https://api.chess.com/pub/player/hikaru/games/2024/01', 'https://api.chess.com/pub/player/hikaru/games/2024/02', 'https://api.chess.com/pub/player/hikaru/games/2024/03', 'https://api.chess.com/pub/player/hikaru/games/2024/04', 'https://api.chess.com/pub/player/hikaru/games/2024/05']}");
      (month_url "2024/03", reply 304 [] "");
      (month_url "2024/04", reply 200 [("ETag", "v2")] "{'games': [1, 2, 3]}");
      (month_url "2024/05", reply 200 [] "{}") ]%string.

Definition five_months_summary : summary :=
  Summary "hikaru" [Some "2024-03"; Some "2024-04"; Some "2024-05"]%string
    ["2024-04"; "2024-05"]%string ["2024-03"]%string 3 "data/raw".

(** The first request fails with 503, every later one answers 200 with
    three games and the validator v2. *)
Definition flaky_once : nat -> request -> attempt :=
  fun n _ =>
    match n with
    | O => reply 503 [] ""
    | S _ => reply 200 [("ETag", "v2")]%string "{'games': [1, 2, 3]}"
    end.

(** The store and the cache file that hold the validator v1 for January. *)
Definition one_validator : gmap string string := {[ january := "v1"%string ]}.
Definition january_cached : world :=
  world_with_cache "{'https://api.chess.com/pub/player/hikaru/games/2024/01': 'v1'}".

End Scenario.

(** ** The program *)

Section Program.

(** The Python library and the outside world, as the program meets them. *)
Variable json_dump : json -> string.         (* [json.dump(v, f, indent=2)] *)
Variable json_load : string -> option json.  (* [json.load]; [None]: JSONDecodeError *)
Variable session_request : nat -> request -> attempt.
  (* [session.request]: its answer to the request sent as the n-th call *)
Variable random_random : nat -> Q.           (* the n-th [random.random()] *)

(** *** etag_cache.py *)

Definition load_etags (path : string) : M (gmap string json) :=
  fun w =>
    match fs w !! path with
    | None => (Ok ∅, w)                      (* not os.path.exists(path) *)
    | Some NoAccess => (Ok ∅, w)             (* except IOError *)
    | Some NotUtf8 => (Raise UnicodeDecodeError, w)
    | Some (Text content) =>
        match json_load content with
        | None => (Ok ∅, w)                  (* except json.JSONDecodeError *)
        | Some (JObj data) => (Ok data, w)   (* isinstance(data, dict) *)
        | Some _ => (Ok ∅, w)
        end
    end.

Definition save_etags (path : string) (etags : gmap string json) : M unit :=
  fun w =>
    match fs w !! path with
    | Some NoAccess => (Raise OSError, w)
    | _ => (Ok tt, set_fs (<[path := Text (json_dump (JObj etags))]> (fs w)) w)
    end.

Definition get_etag (etags : gmap string json) (url : string) : option json :=
  etags !! url.

Definition set_etag (etags : gmap string json) (url : string) (etag : json)
  : gmap string json :=
  <[url := etag]> etags.

(** *** chesscom_client.py *)

(** The two lines of [_calculate_backoff], with the random number [u] that
    [random.random()] returns made a parameter. *)
Definition backoff_delay (base : Q) (attempt : Z) : Q :=
  (base * 2 ^ attempt)%Q.

Definition backoff_with_jitter (base : Q) (attempt : Z) (u : Q) : Q :=
  let delay := backoff_delay base attempt in
  let jitter := (delay * 0.25 * (2 * u - 1))%Q in
  (delay + jitter)%Q.

Definition _calculate_backoff (self : ChessComClient) (attempt : Z) : M Q :=
  fun w =>
    (Ok (backoff_with_jitter (backoff_base_seconds self) attempt
           (random_random (randoms_drawn w))),
     count_random w).

Definition send (req : request) : M attempt :=
  fun w => (Ok (session_request (requests_sent w) req), count_request w).

(** Lines 212-220: the wait that a 429 reply asks for. *)
Definition retry_after_seconds (self : ChessComClient) (response : response)
    (attempt : Z) : M Q :=
  match headers response !! "Retry-After"%string with
  | Some retry_after =>
      if negb (String.eqb retry_after "") then
        match py_int retry_after with
        | Some n => ret (inject_Z n)
        | None => _calculate_backoff self attempt  (* except ValueError *)
        end
      else _calculate_backoff self attempt
  | None => _calculate_backoff self attempt
  end.

(** The [while attempt <= self.max_retries] loop of [_request_with_retry].
    [fuel] bounds the number of iterations. *)
Fixpoint retry_loop (self : ChessComClient) (req : request) (allow_304 : bool)
    (fuel : nat) (attempt : Z) : M response :=
  if negb (attempt <=? max_retries self) then
    raise (ChessComClientError MaxRetriesExhausted)
  else
    match fuel with
    | O => raise FuelExhausted
    | S fuel' =>
        outcome <-- send req ;;
        match outcome with
        | Responded response =>
            let status := status_code response in
            if (status =? 304) && allow_304 then ret response
            else if status =? 429 then
              sleep_seconds <-- retry_after_seconds self response attempt ;;
              if attempt <? max_retries self then
                time_sleep sleep_seconds ;;;
                retry_loop self req allow_304 fuel' (attempt + 1)
              else raise (ChessComAPIError 429 RateLimitExceeded)
            else if (500 <=? status) && (status <? 600) then
              if attempt <? max_retries self then
                sleep_seconds <-- _calculate_backoff self attempt ;;
                time_sleep sleep_seconds ;;;
                retry_loop self req allow_304 fuel' (attempt + 1)
              else raise (ChessComAPIError status ServerErrorAfterRetries)
            else if (400 <=? status) && (status <? 500) then
              raise (ChessComAPIError status ClientErrorResponse)
            else if (200 <=? status) && (status <? 300) then ret response
            else raise (ChessComAPIError status UnexpectedStatusCode)
        | Timeout | ConnectionError =>
            if attempt <? max_retries self then
              sleep_seconds <-- _calculate_backoff self attempt ;;
              time_sleep sleep_seconds ;;;
              retry_loop self req allow_304 fuel' (attempt + 1)
            else raise (ChessComClientError NetworkErrorAfterRetries)
        | RequestException => raise (ChessComClientError RequestFailed)
        end
    end.

Definition _request_with_retry (self : ChessComClient) (method url : string)
    (hdrs : gmap string json) (allow_304 : bool) : M response :=
  retry_loop self (Request method url hdrs (timeout_seconds self)) allow_304
    (Z.to_nat (max_retries self + 1)) 0.

(** [response.json()] *)
Definition response_json (url : string) (r : response) : M json :=
  match json_load (text r) with
  | Some data => ret data
  | None => raise (ChessComClientError InvalidJSONResponse)
  end.

Definition get_archives (self : ChessComClient) (username : string) : M (list json) :=
  let url := BASE_URL +:+ "/player/" +:+ username +:+ "/games/archives" in
  response <-- _request_with_retry self "GET" url ∅ false ;;
  data <-- response_json url response ;;
  match data with
  | JObj d =>
      match d !! "archives"%string with
      | Some (JArr archives) => ret archives
      | Some _ => raise (ChessComClientError ArchivesNotAList)
      | None => raise (ChessComClientError MissingArchivesField)
      end
  | _ => raise (ChessComClientError MissingArchivesField)
  end.

Definition get_month_archive (self : ChessComClient) (url : string)
    (etag : option json) : M (Z * option json * option string) :=
  let hdrs : gmap string json :=
    match etag with
    | Some e => if truthy e then {[ "If-None-Match"%string := e ]} else ∅
    | None => ∅
    end in
  response <-- _request_with_retry self "GET" url hdrs true ;;
  let new_etag := headers response !! "ETag"%string in
  if status_code response =? 304 then ret (304, None, new_etag)
  else
    data <-- response_json url response ;;
    ret (status_code response, Some data, new_etag).

(** *** chesscom_ingest.py *)

(** [/(\d{4})/(\d{2})] read backwards from the end of the text. *)
Definition month_key_at_end (rev_url : list ascii) : option string :=
  match rev_url with
  | m2 :: m1 :: s2 :: y4 :: y3 :: y2 :: y1 :: s1 :: _ =>
      if Ascii.eqb s1 "/" && Ascii.eqb s2 "/"
         && forallb is_digit [y1; y2; y3; y4; m1; m2]
      then Some (string_of_list_ascii [y1; y2; y3; y4; "-"%char; m1; m2])
      else None
  | _ => None
  end.

(** [re.search(r'/(\d{4})/(\d{2})$', url)]: [$] matches at the end of the
    text and also just before a newline that ends it. *)
Definition _extract_year_month (url : string) : option string :=
  let rev_url := rev (list_ascii_of_string url) in
  match month_key_at_end rev_url with
  | Some year_month => Some year_month
  | None =>
      match rev_url with
      | c :: rest => if Ascii.eqb c "010" then month_key_at_end rest else None
      | [] => None
      end
  end.

Definition _get_output_path (out_dir username year_month : string) : string :=
  os_path_join out_dir ["chesscom"; username; year_month +:+ ".json"]%string.

Definition _write_json (path : string) (data : json) : M unit :=
  fun w =>
    match fs w !! path with
    | Some NoAccess => (Raise OSError, w)
    | _ => (Ok tt, add_write path data
                     (set_fs (<[path := Text (json_dump data)]> (fs w)) w))
    end.

Definition str_truthy (s : string) : bool := negb (String.eqb s "").

(** Lines 65-71: the [since] filter. *)
Definition since_filter (since : option string) (archive_urls : list string)
  : list string :=
  match since with
  | Some s =>
      if str_truthy s then
        List.filter
          (fun url =>
             match _extract_year_month url with
             | Some year_month => str_truthy year_month && String.leb s year_month
             | None => false
             end)
          archive_urls
      else archive_urls
  | None => archive_urls
  end.

(** Lines 75-76: the selection window. *)
Definition select_last (max_months : Z) (archive_urls : list string) : list string :=
  if Z.of_nat (List.length archive_urls) >? max_months
  then py_slice_from (- max_months) archive_urls
  else archive_urls.

(** [len(data.get("games", []))] *)
Definition game_count_of (data : option json) : result Z :=
  match data with
  | Some (JObj d) =>
      match py_len (default (JArr []) (d !! "games"%string)) with
      | Some n => Ok n
      | None => Raise TypeError
      end
  | _ => Raise AttributeError
  end.

Definition lift {A : Type} (r : result A) : M A := fun w => (r, w).

(** Lines 87-119: the body of the loop over the selected archives. *)
Definition process_archive (client : ChessComClient) (out_dir username : string)
    (url : string) (st : progress) : M progress :=
  let skip := print (WarnSkipped url) ;;; ret st in
  match _extract_year_month url with
  | None => skip
  | Some year_month =>
      if negb (str_truthy year_month) then skip
      else
        let cached_etag := get_etag (etags st) url in
        fetched <-- get_month_archive client url cached_etag ;;
        let '(status_code, data, new_etag) := fetched in
        if status_code =? 304 then
          print (SaidUnchanged year_month) ;;;
          ret (Progress (etags st) (months_fetched st)
                 (months_unchanged st ++ [year_month]) (total_games st))
        else if status_code =? 200 then
          game_count <-- lift (game_count_of data) ;;
          print (SaidFetched year_month game_count) ;;;
          let output_path := _get_output_path out_dir username year_month in
          _write_json output_path (default JNull data) ;;;
          let etags' :=
            match new_etag with
            | Some e => if str_truthy e then set_etag (etags st) url (JStr e)
                        else etags st
            | None => etags st
            end in
          ret (Progress etags' (months_fetched st ++ [year_month])
                 (months_unchanged st) (total_games st + game_count))
        else
          print (SaidUnexpected status_code) ;;; ret st
  end.

Fixpoint ingest_loop (client : ChessComClient) (out_dir username : string)
    (archive_urls : list string) (st : progress) : M progress :=
  match archive_urls with
  | [] => ret st
  | url :: rest =>
      st' <-- process_archive client out_dir username url st ;;
      ingest_loop client out_dir username rest st'
  end.

(** [get_archives] is declared to return [list[str]]. An entry of the index
    that is not a string makes [sort()] or [re.search] raise [TypeError];
    the embedding raises it as soon as the index is received. *)
Fixpoint url_strings (archives : list json) : option (list string) :=
  match archives with
  | [] => Some []
  | JStr url :: rest => cons url <$> url_strings rest
  | _ :: _ => None
  end.

(** Lines 57-79: the index, the selection window and the f-string that
    joins the selected months. *)
Definition select_archives (client : ChessComClient) (username : string)
    (max_months : Z) (since : option string) : M (list string) :=
  archives <-- get_archives client username ;;
  match url_strings archives with
  | None => raise TypeError
  | Some archive_urls =>
      let archive_urls := list_sort archive_urls in
      let archive_urls := since_filter since archive_urls in
      let archive_urls := select_last max_months archive_urls in
      let selected_months := map _extract_year_month archive_urls in
      match str_join ", " selected_months with
      | None => raise TypeError
      | Some _ => ret archive_urls
      end
  end.

Definition run_chesscom_ingest (username out_dir : string) (max_months : Z)
    (since : option string) (cache_path : string) : M summary :=
  let client := default_client in
  etags0 <-- load_etags cache_path ;;
  archive_urls <-- select_archives client username max_months since ;;
  let selected_months := map _extract_year_month archive_urls in
  st <-- ingest_loop client out_dir username archive_urls
           (Progress etags0 [] [] 0) ;;
  save_etags cache_path (etags st) ;;;
  ret (Summary username selected_months (months_fetched st)
         (months_unchanged st) (total_games st) out_dir).

(** *** Vocabulary of the statements *)

(** A failure of an attempt that [_request_with_retry] retries. *)
Definition retryable (a : attempt) : Prop :=
  match a with
  | Responded r => status_code r = 429 \/ 500 <= status_code r < 600
  | Timeout | ConnectionError => True
  | RequestException => False
  end.

(** The wait that a throttling reply asks for is one [time.sleep] accepts:
    a [Retry-After] that reads as an integer is not negative. *)
Definition legal_wait (a : attempt) : Prop :=
  match a with
  | Responded r =>
      forall retry_after n,
        headers r !! "Retry-After"%string = Some retry_after ->
        py_int retry_after = Some n -> 0 <= n
  | _ => True
  end.

(** The error raised when the budget is spent on the failure [a]. *)
Definition exhaustion_error (a : attempt) : PyExn :=
  match a with
  | Responded r =>
      if status_code r =? 429 then ChessComAPIError 429 RateLimitExceeded
      else ChessComAPIError (status_code r) ServerErrorAfterRetries
  | _ => ChessComClientError NetworkErrorAfterRetries
  end.

(** What one selected archive added to the summary. *)
Inductive mark : Type :=
| Fetched (data : json) (games : Z)
| Unchanged
| Passed.

Definition fetched_month (entry : string * mark) : option string :=
  match entry.2 with Fetched _ _ => _extract_year_month entry.1 | _ => None end.
Definition unchanged_month (entry : string * mark) : option string :=
  match entry.2 with Unchanged => _extract_year_month entry.1 | _ => None end.
Definition games_of (m : mark) : Z :=
  match m with Fetched _ games => games | _ => 0 end.
Definition write_of (out_dir username : string) (entry : string * mark)
  : option (string * json) :=
  match entry.2, _extract_year_month entry.1 with
  | Fetched data _, Some year_month =>
      Some (_get_output_path out_dir username year_month, data)
  | _, _ => None
  end.
(** The count of a fetched archive is the length of its [games] entry, and
    0 when the entry is absent. *)
Definition counted (m : mark) : Prop :=
  match m with
  | Fetched data games =>
      exists d, data = JObj d /\
        py_len (default (JArr []) (d !! "games"%string)) = Some games
  | _ => True
  end.

Fixpoint sum_Z (l : list Z) : Z :=
  match l with [] => 0 | x :: l' => x + sum_Z l' end.

(** [w'] differs from [w] only in the counters and the sleeps. *)
Definition same_files (w w' : world) : Prop :=
  fs w' = fs w /\ writes w' = writes w /\ console w' = console w.

(** * Properties *)

(** ** The monad *)

Lemma bind_ok {A B : Type} (m : M A) (k : A -> M B) w a w' :
  m w = (Ok a, w') -> bind m k w = k a w'.
Proof. intros H. unfold bind. now rewrite H. Qed.

Lemma bind_raise {A B : Type} (m : M A) (k : A -> M B) w e w' :
  m w = (Raise e, w') -> bind m k w = (Raise e, w').
Proof. intros H. unfold bind. now rewrite H. Qed.

Lemma bind_ok_inv {A B : Type} (m : M A) (k : A -> M B) w b w2 :
  bind m k w = (Ok b, w2) ->
  exists a w1, m w = (Ok a, w1) /\ k a w1 = (Ok b, w2).
Proof.
  unfold bind. destruct (m w) as [[a|e] w1]; intros H.
  - now exists a, w1.
  - discriminate.
Qed.

(** ** The selection window *)

Lemma py_slice_from_suffix {A : Type} (n : nat) (l : list A) :
  (0 < n <= List.length l)%nat ->
  py_slice_from (- Z.of_nat n) l = drop (List.length l - n) l.
Proof.
  intros Hn. unfold py_slice_from.
  destruct (Z.ltb_spec (- Z.of_nat n) 0) as [_|Hge]; [|lia].
  f_equal. lia.
Qed.

Lemma select_last_within (max_months : Z) (l : list string) :
  Z.of_nat (List.length l) <= max_months -> select_last max_months l = l.
Proof.
  intros H. unfold select_last.
  destruct (Z.gtb_spec (Z.of_nat (List.length l)) max_months); [lia | reflexivity].
Qed.

Lemma select_last_truncates (max_months : Z) (l : list string) :
  0 < max_months < Z.of_nat (List.length l) ->
  select_last max_months l = drop (List.length l - Z.to_nat max_months) l
  /\ Z.of_nat (List.length (select_last max_months l)) = max_months.
Proof.
  intros H. unfold select_last.
  destruct (Z.gtb_spec (Z.of_nat (List.length l)) max_months) as [_|]; [|lia].
  replace max_months with (Z.of_nat (Z.to_nat max_months)) at 1 3 by lia.
  rewrite py_slice_from_suffix by lia.
  split; [reflexivity|]. rewrite length_drop. lia.
Qed.

(** ** Backoff *)

Lemma backoff_delay_positive (base : Q) (attempt : Z) :
  (0 < base)%Q -> (0 < backoff_delay base attempt)%Q.
Proof.
  intros Hb. unfold backoff_delay.
  apply Qmult_lt_0_compat; [assumption|].
  apply Qpower_0_lt. reflexivity.
Qed.

Lemma backoff_delay_nonneg (base : Q) (attempt : Z) :
  (0 <= base)%Q -> (0 <= backoff_delay base attempt)%Q.
Proof.
  intros Hb. unfold backoff_delay.
  apply Qmult_le_0_compat; [assumption|].
  apply Qpower_0_le. discriminate.
Qed.

Lemma jitter_bounds (delay u : Q) :
  (0 <= delay)%Q -> (0 <= u <= 1)%Q ->
  (0.75 * delay <= delay + delay * 0.25 * (2 * u - 1) <= 1.25 * delay)%Q.
Proof. intros Hd [Hu0 Hu1]. split; nra. Qed.

Lemma backoff_with_jitter_nonneg (base : Q) (attempt : Z) (u : Q) :
  (0 <= base)%Q -> (0 <= u <= 1)%Q ->
  (0 <= backoff_with_jitter base attempt u)%Q.
Proof.
  intros Hb Hu. unfold backoff_with_jitter.
  pose proof (backoff_delay_nonneg base attempt Hb) as Hd.
  pose proof (jitter_bounds _ _ Hd Hu) as [Hlo _].
  cbv zeta. nra.
Qed.

(** C7: for a positive base the delay before jitter grows strictly with the
    attempt number, and [_calculate_backoff] returns a delay within 25% of
    [base * 2^attempt] whatever number in [[0, 1)] [random.random()] gives.
    Python floats are read as exact rationals. *)
Theorem backoff_grows_and_jitter_is_bounded (self : ChessComClient)
    (attempt later : Z) (w : world) :
  (0 < backoff_base_seconds self)%Q ->
  0 <= attempt < later ->
  (0 <= random_random (randoms_drawn w) < 1)%Q ->
  (backoff_delay (backoff_base_seconds self) attempt
   < backoff_delay (backoff_base_seconds self) later)%Q
  /\ exists sleep_seconds w',
       _calculate_backoff self attempt w = (Ok sleep_seconds, w')
       /\ (backoff_delay (backoff_base_seconds self) attempt
            - 0.25 * backoff_delay (backoff_base_seconds self) attempt
           <= sleep_seconds
           <= backoff_delay (backoff_base_seconds self) attempt
              + 0.25 * backoff_delay (backoff_base_seconds self) attempt)%Q.
Proof.
  intros Hbase Hatt Hu. split.
  - unfold backoff_delay.
    apply Qmult_lt_l; [assumption|].
    apply Qpower_lt_compat_l; [lia | reflexivity].
  - eexists _, _. split; [reflexivity|].
    pose proof (backoff_delay_positive _ attempt Hbase) as Hd.
    unfold backoff_with_jitter. cbv zeta.
    destruct Hu as [Hu0 Hu1]. split; nra.
Qed.

(** ** The validator store *)

(** C5, as amended: loading returns an empty store, not an error, when the
    backing file is missing, cannot be opened, holds text that is not JSON,
    or holds JSON that is not an object; a file that holds a JSON object
    yields that object as the store, whatever its values are. *)
Theorem load_etags_degrades_to_empty (path : string) (w : world) :
  fs w !! path <> Some NotUtf8 ->
  exists store,
    load_etags path w = (Ok store, w)
    /\ match fs w !! path with
       | Some (Text content) =>
           match json_load content with
           | Some (JObj d) => store = d
           | _ => store = ∅
           end
       | _ => store = ∅
       end.
Proof.
  intros Hutf. unfold load_etags.
  destruct (fs w !! path) as [[| |content]|]; try (eexists; split; reflexivity).
  - congruence.
  - destruct (json_load content) as [[]|]; eexists; split; reflexivity.
Qed.

(** The one way in which loading fails: the [except] clause of [load_etags]
    names [json.JSONDecodeError] and [IOError], and a file that is not
    UTF-8 raises neither. *)
Lemma load_etags_not_utf8 (path : string) (w : world) :
  fs w !! path = Some NotUtf8 ->
  load_etags path w = (Raise UnicodeDecodeError, w).
Proof. intros H. unfold load_etags. now rewrite H. Qed.

Lemma save_then_load (path : string) (store : gmap string json) (w : world) :
  json_load (json_dump (JObj store)) = Some (JObj store) ->
  fs w !! path <> Some NoAccess ->
  exists w', save_etags path store w = (Ok tt, w')
             /\ load_etags path w' = (Ok store, w').
Proof.
  intros Hcodec Hacc.
  exists (set_fs (<[path := Text (json_dump (JObj store))]> (fs w)) w). split.
  - unfold save_etags. destruct (fs w !! path) as [[]|]; congruence.
  - unfold load_etags. cbn [fs set_fs].
    rewrite lookup_insert_eq. now rewrite Hcodec.
Qed.

(** C6: a mapping of strings to strings that is saved and loaded again
    comes back equal, as long as [json.load] reads back what [json.dump]
    wrote for it; loading a path that does not exist gives the empty
    mapping; loading a file that holds a JSON array gives the empty
    mapping, not an error. *)
Theorem store_round_trip (path : string) (m : gmap string string) (w : world) :
  json_load (json_dump (JObj (JStr <$> m))) = Some (JObj (JStr <$> m)) ->
  fs w !! path <> Some NoAccess ->
  (exists w', save_etags path (JStr <$> m) w = (Ok tt, w')
              /\ load_etags path w' = (Ok (JStr <$> m), w'))
  /\ (forall w0, fs w0 !! path = None -> load_etags path w0 = (Ok ∅, w0))
  /\ (forall w0 content items,
        fs w0 !! path = Some (Text content) ->
        json_load content = Some (JArr items) ->
        load_etags path w0 = (Ok ∅, w0)).
Proof.
  intros Hcodec Hacc. split; [|split].
  - now apply save_then_load.
  - intros w0 H0. unfold load_etags. now rewrite H0.
  - intros w0 content items H0 Harr. unfold load_etags. now rewrite H0, Harr.
Qed.

(** ** The retry loop *)

Lemma time_sleep_ok (secs : Q) (w : world) :
  (0 <= secs)%Q -> time_sleep secs w = (Ok tt, add_sleep secs w).
Proof.
  intros H. unfold time_sleep.
  apply Qle_bool_iff in H. now rewrite H.
Qed.

Lemma retry_loop_unfold self req allow_304 fuel attempt :
  attempt <= max_retries self ->
  retry_loop self req allow_304 (S fuel) attempt =
  (outcome <-- send req ;;
   match outcome with
   | Responded response =>
       let status := status_code response in
       if (status =? 304) && allow_304 then ret response
       else if status =? 429 then
         sleep_seconds <-- retry_after_seconds self response attempt ;;
         if attempt <? max_retries self then
           time_sleep sleep_seconds ;;;
           retry_loop self req allow_304 fuel (attempt + 1)
         else raise (ChessComAPIError 429 RateLimitExceeded)
       else if (500 <=? status) && (status <? 600) then
         if attempt <? max_retries self then
           sleep_seconds <-- _calculate_backoff self attempt ;;
           time_sleep sleep_seconds ;;;
           retry_loop self req allow_304 fuel (attempt + 1)
         else raise (ChessComAPIError status ServerErrorAfterRetries)
       else if (400 <=? status) && (status <? 500) then
         raise (ChessComAPIError status ClientErrorResponse)
       else if (200 <=? status) && (status <? 300) then ret response
       else raise (ChessComAPIError status UnexpectedStatusCode)
   | Timeout | ConnectionError =>
       if attempt <? max_retries self then
         sleep_seconds <-- _calculate_backoff self attempt ;;
         time_sleep sleep_seconds ;;;
         retry_loop self req allow_304 fuel (attempt + 1)
       else raise (ChessComClientError NetworkErrorAfterRetries)
   | RequestException => raise (ChessComClientError RequestFailed)
   end).
Proof.
  intros H. cbn [retry_loop].
  destruct (Z.leb_spec attempt (max_retries self)); [reflexivity | lia].
Qed.

(** The fuel that [_request_with_retry] gives its loop is never used up. *)
Lemma retry_loop_fuel self req allow_304 fuel :
  forall attempt w,
    max_retries self + 1 - attempt <= Z.of_nat fuel ->
    fst (retry_loop self req allow_304 fuel attempt w) <> Raise FuelExhausted.
Proof.
  induction fuel as [|fuel IH]; intros attempt w Hfuel.
  - cbn [retry_loop].
    destruct (Z.leb_spec attempt (max_retries self)); [lia | discriminate].
  - destruct (Z.leb_spec attempt (max_retries self)) as [Hle|Hgt].
    2:{ cbn [retry_loop].
        destruct (Z.leb_spec attempt (max_retries self)); [lia | discriminate]. }
    rewrite retry_loop_unfold by assumption.
    assert (Hnext : forall secs w1,
               fst ((time_sleep secs ;;;
                     retry_loop self req allow_304 fuel (attempt + 1)) w1)
               <> Raise FuelExhausted).
    { intros secs w1. unfold bind, time_sleep.
      destruct (Qle_bool 0 secs); [apply IH; lia | discriminate]. }
    unfold bind at 1. unfold send.
    destruct (session_request (requests_sent w) req) as [r| | |]; cbv zeta.
    + repeat (case_match; try discriminate); unfold ret, raise; try discriminate.
      * unfold bind at 1.
        destruct (retry_after_seconds self r attempt (count_request w))
          as [[secs|e] w1] eqn:Hwait; [apply Hnext|].
        unfold retry_after_seconds, _calculate_backoff, ret in Hwait.
        repeat case_match; inversion Hwait; discriminate.
      * unfold bind at 1.
        destruct (retry_after_seconds self r attempt (count_request w))
          as [[secs|e] w1] eqn:Hwait; [discriminate|].
        unfold retry_after_seconds, _calculate_backoff, ret in Hwait.
        repeat case_match; inversion Hwait; discriminate.
      * unfold bind at 1, _calculate_backoff. apply Hnext.
    + case_match; [|discriminate].
      unfold bind at 1, _calculate_backoff. apply Hnext.
    + case_match; [|discriminate].
      unfold bind at 1, _calculate_backoff. apply Hnext.
    + discriminate.
Qed.

Lemma request_with_retry_fuel self method url hdrs allow_304 w :
  fst (_request_with_retry self method url hdrs allow_304 w) <> Raise FuelExhausted.
Proof. unfold _request_with_retry. apply retry_loop_fuel. lia. Qed.

Lemma retry_after_seconds_ok self r attempt w :
  (0 <= backoff_base_seconds self)%Q ->
  (forall n, (0 <= random_random n <= 1)%Q) ->
  legal_wait (Responded r) ->
  exists secs w1,
    retry_after_seconds self r attempt w = (Ok secs, w1)
    /\ (0 <= secs)%Q
    /\ requests_sent w1 = requests_sent w /\ slept w1 = slept w.
Proof.
  intros Hbase Hrng Hwait.
  assert (Hbackoff : exists secs w1,
             _calculate_backoff self attempt w = (Ok secs, w1)
             /\ (0 <= secs)%Q
             /\ requests_sent w1 = requests_sent w /\ slept w1 = slept w).
  { eexists _, _. split; [reflexivity|]. split; [|split; reflexivity].
    apply backoff_with_jitter_nonneg; [assumption | apply Hrng]. }
  unfold retry_after_seconds.
  destruct (headers r !! "Retry-After"%string) as [retry_after|] eqn:Hhdr;
    [|exact Hbackoff].
  destruct (negb (String.eqb retry_after "")); [|exact Hbackoff].
  destruct (py_int retry_after) as [n|] eqn:Hint; [|exact Hbackoff].
  exists (inject_Z n), w. split; [reflexivity|]. split; [|split; reflexivity].
  specialize (Hwait retry_after n Hhdr Hint).
  unfold Qle, inject_Z. cbn. lia.
Qed.

(** The retry budget, when every wait is one that [time.sleep] accepts:
    [k] retries are left at [attempt], every further attempt fails in a
    retryable way, and the loop gives up after exactly [k + 1] requests and
    [k] sleeps, with the error of the last failure. *)
Lemma retry_loop_budget self req allow_304 :
  (0 <= backoff_base_seconds self)%Q ->
  (forall n, (0 <= random_random n <= 1)%Q) ->
  (forall n, retryable (session_request n req)
             /\ legal_wait (session_request n req)) ->
  forall (k : nat) attempt w,
    attempt = max_retries self - Z.of_nat k ->
    exists w',
      retry_loop self req allow_304 (S k) attempt w =
        (Raise (exhaustion_error
                  (session_request (requests_sent w + k)%nat req)), w')
      /\ requests_sent w' = (requests_sent w + S k)%nat
      /\ List.length (slept w') = (List.length (slept w) + k)%nat.
Proof.
  intros Hbase Hrng Hfail.
  induction k as [|k IH]; intros attempt w Hatt.
  - (* the last attempt *)
    rewrite retry_loop_unfold by lia.
    unfold bind at 1. unfold send.
    replace (requests_sent w + 0)%nat with (requests_sent w) by lia.
    destruct (Hfail (requests_sent w)) as [Hretry Hwait].
    destruct (session_request (requests_sent w) req) as [r| | |];
      cbn [retryable exhaustion_error] in *; cbv zeta.
    + destruct Hretry as [H429|H5xx].
      * rewrite H429. cbn [Z.eqb Pos.eqb andb].
        destruct (retry_after_seconds_ok self r attempt (count_request w)
                    Hbase Hrng Hwait) as (secs & w1 & Hsecs & _ & Hreq & Hsl).
        rewrite (bind_ok _ _ _ _ _ Hsecs).
        destruct (Z.ltb_spec attempt (max_retries self)); [lia|].
        exists w1. unfold raise. split; [reflexivity|].
        rewrite Hreq, Hsl. cbn. lia.
      * replace (status_code r =? 304) with false by lia.
        replace (status_code r =? 429) with false by lia.
        replace ((500 <=? status_code r) && (status_code r <? 600)) with true by lia.
        cbn [andb].
        destruct (Z.ltb_spec attempt (max_retries self)); [lia|].
        exists (count_request w). unfold raise. split; [reflexivity|]. cbn. lia.
    + destruct (Z.ltb_spec attempt (max_retries self)); [lia|].
      exists (count_request w). unfold raise. split; [reflexivity|]. cbn. lia.
    + destruct (Z.ltb_spec attempt (max_retries self)); [lia|].
      exists (count_request w). unfold raise. split; [reflexivity|]. cbn. lia.
    + contradiction.
  - (* an attempt with retries left *)
    rewrite retry_loop_unfold by lia.
    assert (Hlt : (attempt <? max_retries self) = true) by lia.
    assert (Hnext : forall secs w1,
               (0 <= secs)%Q ->
               requests_sent w1 = S (requests_sent w) ->
               slept w1 = slept w ->
               exists w',
                 (time_sleep secs ;;;
                  retry_loop self req allow_304 (S k) (attempt + 1)) w1 =
                 (Raise (exhaustion_error
                           (session_request (requests_sent w + S k)%nat req)), w')
                 /\ requests_sent w' = (requests_sent w + S (S k))%nat
                 /\ List.length (slept w') = (List.length (slept w) + S k)%nat).
    { intros secs w1 Hsecs Hreq Hsl.
      rewrite (bind_ok _ _ _ _ _ (time_sleep_ok secs w1 Hsecs)).
      destruct (IH (attempt + 1) (add_sleep secs w1) ltac:(lia))
        as (w' & Hrun & Hreq' & Hsl').
      exists w'. cbn [requests_sent slept add_sleep] in *.
      rewrite Hreq in *. rewrite Hsl in *.
      replace (requests_sent w + S k)%nat with (S (requests_sent w) + k)%nat by lia.
      split; [exact Hrun|]. cbn [List.length] in Hsl'. lia. }
    assert (Hbackoff : forall w1,
               requests_sent w1 = S (requests_sent w) ->
               slept w1 = slept w ->
               exists w',
                 (sleep_seconds <-- _calculate_backoff self attempt ;;
                  time_sleep sleep_seconds ;;;
                  retry_loop self req allow_304 (S k) (attempt + 1)) w1 =
                 (Raise (exhaustion_error
                           (session_request (requests_sent w + S k)%nat req)), w')
                 /\ requests_sent w' = (requests_sent w + S (S k))%nat
                 /\ List.length (slept w') = (List.length (slept w) + S k)%nat).
    { intros w1 Hreq Hsl. unfold bind at 1, _calculate_backoff.
      apply Hnext; [|exact Hreq|exact Hsl].
      apply backoff_with_jitter_nonneg; [assumption | apply Hrng]. }
    unfold bind at 1. unfold send.
    destruct (Hfail (requests_sent w)) as [Hretry Hwait].
    destruct (session_request (requests_sent w) req) as [r| | |];
      cbn [retryable] in *; cbv zeta.
    + destruct Hretry as [H429|H5xx].
      * rewrite H429. cbn [Z.eqb Pos.eqb andb].
        destruct (retry_after_seconds_ok self r attempt (count_request w)
                    Hbase Hrng Hwait) as (secs & w1 & Hsecs & Hpos & Hreq & Hsl).
        rewrite (bind_ok _ _ _ _ _ Hsecs). rewrite Hlt.
        apply Hnext; [exact Hpos | now rewrite Hreq | now rewrite Hsl].
      * replace (status_code r =? 304) with false by lia.
        replace (status_code r =? 429) with false by lia.
        replace ((500 <=? status_code r) && (status_code r <? 600)) with true by lia.
        cbn [andb]. rewrite Hlt. apply Hbackoff; reflexivity.
    + rewrite Hlt. apply Hbackoff; reflexivity.
    + rewrite Hlt. apply Hbackoff; reflexivity.
    + contradiction.
Qed.

(** The retry budget of [_request_with_retry]: when every attempt fails
    with a 429 (whose wait [time.sleep] accepts), a 5xx or a network error,
    exactly [max_retries + 1] requests are sent and [max_retries] sleeps
    made before the error of the last failure is raised. *)
Lemma request_with_retry_budget self method url hdrs allow_304 w :
  0 <= max_retries self ->
  (0 <= backoff_base_seconds self)%Q ->
  (forall n, (0 <= random_random n <= 1)%Q) ->
  (forall n req, retryable (session_request n req)
                 /\ legal_wait (session_request n req)) ->
  exists last w',
    _request_with_retry self method url hdrs allow_304 w =
      (Raise (exhaustion_error last), w')
    /\ retryable last
    /\ Z.of_nat (requests_sent w') = Z.of_nat (requests_sent w) + (max_retries self + 1)
    /\ Z.of_nat (List.length (slept w')) = Z.of_nat (List.length (slept w)) + max_retries self.
Proof.
  intros Hmax Hbase Hrng Hfail. unfold _request_with_retry.
  set (req := Request method url hdrs (timeout_seconds self)).
  replace (Z.to_nat (max_retries self + 1)) with (S (Z.to_nat (max_retries self))) by lia.
  destruct (retry_loop_budget self req allow_304 Hbase Hrng
              (fun n => Hfail n req) (Z.to_nat (max_retries self)) 0 w ltac:(lia))
    as (w' & Hrun & Hreq & Hsl).
  eexists _, w'. split; [exact Hrun|]. split; [apply Hfail|]. lia.
Qed.

(** ** What a run leaves untouched *)

Lemma same_files_refl w : same_files w w.
Proof. repeat split. Qed.

Lemma same_files_trans w1 w2 w3 :
  same_files w1 w2 -> same_files w2 w3 -> same_files w1 w3.
Proof. unfold same_files. intros (?&?&?) (?&?&?). repeat split; congruence. Qed.

Lemma retry_after_seconds_frame self r attempt w :
  same_files w (snd (retry_after_seconds self r attempt w)).
Proof.
  unfold retry_after_seconds, _calculate_backoff, ret.
  repeat case_match; repeat split.
Qed.

Lemma retry_loop_frame self req allow_304 fuel :
  forall attempt w, same_files w (snd (retry_loop self req allow_304 fuel attempt w)).
Proof.
  induction fuel as [|fuel IH]; intros attempt w.
  - cbn [retry_loop]. case_match; apply same_files_refl.
  - destruct (Z.leb_spec attempt (max_retries self)) as [Hle|Hgt].
    2:{ cbn [retry_loop].
        destruct (Z.leb_spec attempt (max_retries self)); [lia | apply same_files_refl]. }
    rewrite retry_loop_unfold by assumption.
    assert (Hnext : forall secs w1,
               same_files w w1 ->
               same_files w
                 (snd ((time_sleep secs ;;;
                        retry_loop self req allow_304 fuel (attempt + 1)) w1))).
    { intros secs w1 Hw1. unfold bind, time_sleep.
      destruct (Qle_bool 0 secs); [|exact Hw1].
      eapply same_files_trans; [|apply IH].
      destruct Hw1 as (?&?&?). repeat split; assumption. }
    assert (Hcount : same_files w (count_request w)) by (repeat split).
    unfold bind at 1. unfold send.
    destruct (session_request (requests_sent w) req) as [r| | |]; cbv zeta.
    + repeat (case_match; try exact Hcount); unfold ret, raise; try exact Hcount.
      * unfold bind at 1.
        pose proof (retry_after_seconds_frame self r attempt (count_request w)) as Hwait.
        destruct (retry_after_seconds self r attempt (count_request w))
          as [[secs|e] w1]; cbn [snd] in *.
        -- apply Hnext. exact (same_files_trans _ _ _ Hcount Hwait).
        -- exact (same_files_trans _ _ _ Hcount Hwait).
      * unfold bind at 1.
        pose proof (retry_after_seconds_frame self r attempt (count_request w)) as Hwait.
        destruct (retry_after_seconds self r attempt (count_request w))
          as [[secs|e] w1]; cbn [snd] in *;
          exact (same_files_trans _ _ _ Hcount Hwait).
      * unfold bind at 1, _calculate_backoff. apply Hnext. repeat split.
    + case_match; [|exact Hcount].
      unfold bind at 1, _calculate_backoff. apply Hnext. repeat split.
    + case_match; [|exact Hcount].
      unfold bind at 1, _calculate_backoff. apply Hnext. repeat split.
    + exact Hcount.
Qed.

Lemma get_month_archive_frame self url etag w :
  same_files w (snd (get_month_archive self url etag w)).
Proof.
  unfold get_month_archive, _request_with_retry. cbv zeta. unfold bind at 1.
  match goal with |- context [retry_loop ?s ?r ?a ?f ?n w] =>
    pose proof (retry_loop_frame s r a f n w) as Hframe;
    destruct (retry_loop s r a f n w) as [[response|e] w1] end;
    cbn [snd] in *; [|exact Hframe].
  unfold response_json, bind, ret, raise.
  repeat case_match; simplify_eq; exact Hframe.
Qed.

Lemma get_archives_frame self username w :
  same_files w (snd (get_archives self username w)).
Proof.
  unfold get_archives, _request_with_retry. cbv zeta. unfold bind at 1.
  match goal with |- context [retry_loop ?s ?r ?a ?f ?n w] =>
    pose proof (retry_loop_frame s r a f n w) as Hframe;
    destruct (retry_loop s r a f n w) as [[response|e] w1] end;
    cbn [snd] in *; [|exact Hframe].
  unfold response_json, bind, ret, raise.
  repeat case_match; simplify_eq; exact Hframe.
Qed.

(** ** The loop over the selected archives *)

Lemma month_key_at_end_truthy (rev_url : list ascii) (year_month : string) :
  month_key_at_end rev_url = Some year_month -> str_truthy year_month = true.
Proof.
  unfold month_key_at_end.
  do 8 (destruct rev_url as [|? rev_url]; [discriminate|]).
  destruct (_ && _); [|discriminate].
  intros [= <-]. reflexivity.
Qed.

Lemma extract_year_month_truthy (url year_month : string) :
  _extract_year_month url = Some year_month -> str_truthy year_month = true.
Proof.
  unfold _extract_year_month.
  destruct (month_key_at_end (rev (list_ascii_of_string url))) eqn:Hend.
  - intros [= <-]. eapply month_key_at_end_truthy, Hend.
  - destruct (rev (list_ascii_of_string url)) as [|c rest]; [discriminate|].
    destruct (Ascii.eqb c "010"); [|discriminate].
    apply month_key_at_end_truthy.
Qed.

Section Loop.

Variable client : ChessComClient.
Variables out_dir username : string.

Local Abbreviation process := (process_archive client out_dir username).
Local Abbreviation loop := (ingest_loop client out_dir username).

Lemma process_archive_skips url st w :
  _extract_year_month url = None ->
  process url st w = (Ok st, add_line (WarnSkipped url) w).
Proof. intros H. unfold process, process_archive. now rewrite H. Qed.

Lemma process_archive_fetch_raises url year_month st w e w1 :
  _extract_year_month url = Some year_month ->
  get_month_archive client url (get_etag (etags st) url) w = (Raise e, w1) ->
  process url st w = (Raise e, w1).
Proof.
  intros Hym Hget. unfold process, process_archive. rewrite Hym.
  rewrite (extract_year_month_truthy _ _ Hym). cbn [negb].
  now rewrite (bind_raise _ _ _ _ _ Hget).
Qed.

Lemma process_archive_unchanged url year_month st w data new_etag w1 :
  _extract_year_month url = Some year_month ->
  get_month_archive client url (get_etag (etags st) url) w =
    (Ok (304, data, new_etag), w1) ->
  process url st w =
    (Ok (Progress (etags st) (months_fetched st)
           (months_unchanged st ++ [year_month]) (total_games st)),
     add_line (SaidUnchanged year_month) w1).
Proof.
  intros Hym Hget. unfold process, process_archive. rewrite Hym.
  rewrite (extract_year_month_truthy _ _ Hym). cbn [negb].
  now rewrite (bind_ok _ _ _ _ _ Hget).
Qed.

Lemma process_archive_fetched url year_month st w data new_etag w1 st' w' :
  _extract_year_month url = Some year_month ->
  get_month_archive client url (get_etag (etags st) url) w =
    (Ok (200, data, new_etag), w1) ->
  process url st w = (Ok st', w') ->
  exists body games,
    data = Some body
    /\ game_count_of data = Ok games
    /\ fs w1 !! _get_output_path out_dir username year_month <> Some NoAccess
    /\ st' = Progress
               (match new_etag with
                | Some e => if str_truthy e then set_etag (etags st) url (JStr e)
                            else etags st
                | None => etags st
                end)
               (months_fetched st ++ [year_month]) (months_unchanged st)
               (total_games st + games)
    /\ writes w' = (_get_output_path out_dir username year_month, body) :: writes w1
    /\ requests_sent w' = requests_sent w1.
Proof.
  intros Hym Hget. unfold process, process_archive. rewrite Hym.
  rewrite (extract_year_month_truthy _ _ Hym). cbn [negb].
  rewrite (bind_ok _ _ _ _ _ Hget). cbn [Z.eqb Pos.eqb].
  unfold bind, lift, print, _write_json, ret.
  destruct (game_count_of data) as [games|e] eqn:Hcount; [|discriminate].
  cbn [fs add_line].
  destruct data as [body|]; [|discriminate].
  destruct (fs w1 !! _get_output_path out_dir username year_month)
    as [[]|] eqn:Hfile; try discriminate;
    intros [= <- <-]; exists body, games; cbn;
    (repeat split; try reflexivity; congruence).
Qed.

Lemma process_archive_other_status url year_month st w status data new_etag w1 :
  _extract_year_month url = Some year_month ->
  get_month_archive client url (get_etag (etags st) url) w =
    (Ok (status, data, new_etag), w1) ->
  status <> 304 -> status <> 200 ->
  process url st w = (Ok st, add_line (SaidUnexpected status) w1).
Proof.
  intros Hym Hget H304 H200. unfold process, process_archive. rewrite Hym.
  rewrite (extract_year_month_truthy _ _ Hym). cbn [negb].
  rewrite (bind_ok _ _ _ _ _ Hget).
  destruct (Z.eqb_spec status 304); [contradiction|].
  destruct (Z.eqb_spec status 200); [contradiction|].
  reflexivity.
Qed.

(** C2, as amended: when the fetch of a selected archive returns 304, the
    month is recorded as unchanged and the store is left as it was, whether
    or not the reply carries a new validator; no file is written. *)
Theorem unchanged_leaves_store_alone url year_month st w data new_etag w1 :
  _extract_year_month url = Some year_month ->
  get_month_archive client url (get_etag (etags st) url) w =
    (Ok (304, data, new_etag), w1) ->
  exists st' w',
    process_archive client out_dir username url st w = (Ok st', w')
    /\ etags st' = etags st
    /\ months_unchanged st' = months_unchanged st ++ [year_month]
    /\ months_fetched st' = months_fetched st
    /\ fs w' = fs w /\ writes w' = writes w.
Proof.
  intros Hym Hget. eexists _, _. split.
  - exact (process_archive_unchanged _ _ _ _ _ _ _ Hym Hget).
  - pose proof (get_month_archive_frame client url (get_etag (etags st) url) w)
      as (Hfs & Hwrites & _).
    rewrite Hget in Hfs, Hwrites. cbn [snd] in Hfs, Hwrites.
    repeat split; assumption.
Qed.

(** C8: a fetch that brings no new validator never clears the stored one.
    After a 304, or after a 200 whose reply has no [ETag], the entry of the
    store for that archive (indeed the whole store) is what it was. *)
Theorem validator_kept_without_new_one url st w status data new_etag w1 st' w' :
  get_month_archive client url (get_etag (etags st) url) w =
    (Ok (status, data, new_etag), w1) ->
  status = 304 \/ (status = 200 /\ new_etag = None) ->
  process_archive client out_dir username url st w = (Ok st', w') ->
  get_etag (etags st') url = get_etag (etags st) url /\ etags st' = etags st.
Proof.
  intros Hget Hcase Hrun.
  enough (etags st' = etags st) as -> by (split; reflexivity).
  destruct (_extract_year_month url) as [year_month|] eqn:Hym.
  2:{ fold process in Hrun. rewrite (process_archive_skips _ _ _ Hym) in Hrun.
      now injection Hrun as <- _. }
  destruct Hcase as [->|[-> ->]].
  - fold process in Hrun.
    rewrite (process_archive_unchanged _ _ _ _ _ _ _ Hym Hget) in Hrun.
    now injection Hrun as <- _.
  - destruct (process_archive_fetched _ _ _ _ _ _ _ _ _ Hym Hget Hrun)
      as (body & games & _ & _ & _ & -> & _).
    reflexivity.
Qed.

Lemma ingest_loop_app (before after : list string) st w :
  loop (before ++ after) st w =
  (st1 <-- loop before st ;; loop after st1) w.
Proof.
  revert st w. induction before as [|url before IH]; intros st w.
  - reflexivity.
  - cbn [app]. unfold loop in *. cbn [ingest_loop]. unfold bind in *.
    destruct (process_archive client out_dir username url st w) as [[st1|e] w1];
      [apply IH | reflexivity].
Qed.

Lemma ingest_loop_aborts (before : list string) url (after : list string)
    st w st1 w1 e w2 :
  loop before st w = (Ok st1, w1) ->
  process url st1 w1 = (Raise e, w2) ->
  loop (before ++ url :: after) st w = (Raise e, w2).
Proof.
  intros Hbefore Hurl. rewrite ingest_loop_app.
  rewrite (bind_ok _ _ _ _ _ Hbefore).
  unfold loop. cbn [ingest_loop]. fold process.
  now rewrite (bind_raise _ _ _ _ _ Hurl).
Qed.

End Loop.

(** C1, as amended: the loop over the selected archives catches nothing.
    A failure of any kind while one archive is processed, a malformed
    success body as much as a remote, network or transport error, leaves
    [run_chesscom_ingest] at once as that same failure: the archives after
    it are not processed and the store is not saved. *)
Theorem failure_in_loop_aborts_run username out_dir max_months since cache_path
    w etags0 w1 before url after w2 st w3 e w4 :
  load_etags cache_path w = (Ok etags0, w1) ->
  select_archives default_client username max_months since w1 =
    (Ok (before ++ url :: after), w2) ->
  ingest_loop default_client out_dir username before (Progress etags0 [] [] 0) w2 =
    (Ok st, w3) ->
  process_archive default_client out_dir username url st w3 = (Raise e, w4) ->
  run_chesscom_ingest username out_dir max_months since cache_path w = (Raise e, w4).
Proof.
  intros Hload Hselect Hbefore Hurl. unfold run_chesscom_ingest. cbv zeta.
  rewrite (bind_ok _ _ _ _ _ Hload), (bind_ok _ _ _ _ _ Hselect).
  now rewrite (bind_raise _ _ _ _ _
                 (ingest_loop_aborts _ _ _ _ _ _ _ _ _ _ _ _ Hbefore Hurl)).
Qed.

(** ** The accounts of a run *)

Lemma counted_nonneg (m : mark) : counted m -> 0 <= games_of m.
Proof.
  destruct m as [data games| |]; cbn; try lia.
  intros (d & _ & Hlen). unfold py_len in Hlen.
  repeat case_match; simplify_eq; lia.
Qed.

Lemma sum_games_nonneg (marks : list mark) :
  Forall counted marks -> 0 <= sum_Z (games_of <$> marks).
Proof.
  induction 1 as [|m marks Hm _ IH]; cbn [fmap list_fmap sum_Z]; [lia|].
  pose proof (counted_nonneg m Hm). lia.
Qed.

Lemma game_count_counted (body : json) (games : Z) :
  game_count_of (Some body) = Ok games -> counted (Fetched body games).
Proof.
  unfold game_count_of. destruct body as [| | | | |d]; try discriminate.
  destruct (py_len _) as [n|] eqn:Hlen; [|discriminate].
  intros [= <-]. exists d. split; [reflexivity | exact Hlen].
Qed.

Lemma omap_cons_option_list {A B : Type} (f : A -> option B) (x : A) (l : list A) :
  omap f (x :: l) = option_list (f x) ++ omap f l.
Proof. cbn. now destruct (f x). Qed.

Section Accounts.

Variable client : ChessComClient.
Variables out_dir username : string.

(** One archive adds one mark: to the fetched months, to the unchanged
    months, or to neither. *)
Lemma process_archive_mark url st w st' w' :
  process_archive client out_dir username url st w = (Ok st', w') ->
  exists m : mark,
    months_fetched st' = months_fetched st ++ option_list (fetched_month (url, m))
    /\ months_unchanged st' =
         months_unchanged st ++ option_list (unchanged_month (url, m))
    /\ total_games st' = total_games st + games_of m
    /\ counted m
    /\ writes w' = option_list (write_of out_dir username (url, m)) ++ writes w.
Proof.
  intros Hrun.
  destruct (_extract_year_month url) as [year_month|] eqn:Hym.
  2:{ rewrite (process_archive_skips _ _ _ _ _ _ Hym) in Hrun.
      injection Hrun as <- <-. exists Passed.
      unfold fetched_month, unchanged_month, write_of. cbn.
      rewrite !app_nil_r. repeat split; lia. }
  pose proof (get_month_archive_frame client url (get_etag (etags st) url) w)
    as (_ & Hwrites & _).
  destruct (get_month_archive client url (get_etag (etags st) url) w)
    as [[[[status data] new_etag]|e] w1] eqn:Hget; cbn [snd] in Hwrites.
  2:{ rewrite (process_archive_fetch_raises _ _ _ _ _ _ _ _ _ Hym Hget) in Hrun.
      discriminate. }
  destruct (Z.eq_dec status 304) as [->|H304].
  { rewrite (process_archive_unchanged _ _ _ _ _ _ _ _ _ _ Hym Hget) in Hrun.
    injection Hrun as <- <-. exists Unchanged.
    unfold fetched_month, unchanged_month, write_of. cbn. rewrite Hym.
    rewrite !app_nil_r. repeat split; [lia | exact Hwrites]. }
  destruct (Z.eq_dec status 200) as [->|H200].
  { destruct (process_archive_fetched _ _ _ _ _ _ _ _ _ _ _ _ Hym Hget Hrun)
      as (body & games & -> & Hcount & _ & -> & Hw & _).
    exists (Fetched body games).
    unfold fetched_month, unchanged_month, write_of. cbn. rewrite Hym.
    rewrite !app_nil_r. repeat split.
    - now apply game_count_counted.
    - rewrite Hw, Hwrites. reflexivity. }
  rewrite (process_archive_other_status _ _ _ _ _ _ _ _ _ _ _ Hym Hget H304 H200)
    in Hrun.
  injection Hrun as <- <-. exists Passed.
  unfold fetched_month, unchanged_month, write_of. cbn.
  rewrite !app_nil_r. repeat split; [lia | exact Hwrites].
Qed.

Lemma ingest_loop_marks (urls : list string) :
  forall st w st' w',
    ingest_loop client out_dir username urls st w = (Ok st', w') ->
    exists marks : list mark,
      List.length marks = List.length urls
      /\ months_fetched st' =
           months_fetched st ++ omap fetched_month (zip urls marks)
      /\ months_unchanged st' =
           months_unchanged st ++ omap unchanged_month (zip urls marks)
      /\ total_games st' = total_games st + sum_Z (games_of <$> marks)
      /\ Forall counted marks
      /\ writes w' =
           rev (omap (write_of out_dir username) (zip urls marks)) ++ writes w.
Proof.
  induction urls as [|url urls IH]; intros st w st' w' Hrun.
  - injection Hrun as <- <-. exists []. cbn. rewrite !app_nil_r.
    repeat split; [lia | constructor].
  - cbn [ingest_loop] in Hrun.
    apply bind_ok_inv in Hrun as (st1 & w1 & Hurl & Hrest).
    apply process_archive_mark in Hurl as (m & Hf & Hu & Ht & Hc & Hw).
    apply IH in Hrest as (marks & Hlen & Hf' & Hu' & Ht' & Hc' & Hw').
    exists (m :: marks).
    change (zip (url :: urls) (m :: marks)) with ((url, m) :: zip urls marks).
    rewrite !omap_cons_option_list.
    cbn [List.length fmap list_fmap sum_Z].
    rewrite Hf', Hu', Ht', Hw', Hf, Hu, Ht, Hw, rev_app_distr.
    rewrite <- !app_assoc.
    repeat split; try reflexivity; try lia.
    + constructor; assumption.
    + f_equal. now destruct (write_of out_dir username (url, m)).
Qed.

End Accounts.

Lemma marked_month_selected (f : string * mark -> option string)
    (urls : list string) (marks : list mark) (year_month : string) :
  (forall entry ym, f entry = Some ym -> _extract_year_month entry.1 = Some ym) ->
  In year_month (omap f (zip urls marks)) ->
  In (Some year_month) (map _extract_year_month urls).
Proof.
  intros Hf Hin.
  apply list_elem_of_In, list_elem_of_omap in Hin as ([url m] & Hentry & Hsome).
  apply elem_of_zip_l in Hentry. apply Hf in Hsome. cbn in Hsome.
  rewrite <- Hsome. apply in_map. now apply list_elem_of_In.
Qed.

Lemma marks_are_exclusive (entries : list (string * mark)) :
  (List.length (omap fetched_month entries)
   + List.length (omap unchanged_month entries) <= List.length entries)%nat.
Proof.
  induction entries as [|[url m] entries IH]; [reflexivity|].
  rewrite !omap_cons_option_list, !length_app.
  assert (List.length (option_list (fetched_month (url, m)))
          + List.length (option_list (unchanged_month (url, m))) <= 1)%nat.
  { unfold fetched_month, unchanged_month. cbn [fst snd].
    destruct m; try destruct (_extract_year_month url); cbn; lia. }
  cbn [List.length]. lia.
Qed.

Lemma str_join_all_some (sep : string) (items : list (option string)) :
  str_join sep items <> None -> Forall is_Some items.
Proof.
  induction items as [|item items IH]; [constructor|].
  cbn [str_join]. destruct item as [s|]; [|congruence].
  destruct (str_join sep items); [|congruence].
  intros _. constructor; [eauto | apply IH; congruence].
Qed.

(** Every archive that is selected has a month: the warning branch of the
    loop is not reached in a run. *)
Lemma selected_archives_have_months client username max_months since w urls w' :
  select_archives client username max_months since w = (Ok urls, w') ->
  Forall (fun url => is_Some (_extract_year_month url)) urls.
Proof.
  unfold select_archives. intros H.
  apply bind_ok_inv in H as (archives & w1 & _ & H).
  destruct (url_strings archives) as [archive_urls|]; [|discriminate].
  destruct (str_join _ _) eqn:Hjoin; [|discriminate].
  injection H as <- _.
  apply (proj1 (List.Forall_map _ _ _)).
  apply str_join_all_some with (sep := ", "%string). congruence.
Qed.

Lemma select_archives_frame client username max_months since w :
  same_files w (snd (select_archives client username max_months since w)).
Proof.
  unfold select_archives. unfold bind.
  pose proof (get_archives_frame client username w) as Hframe.
  destruct (get_archives client username w) as [[archives|e] w1]; cbn [snd] in *;
    [|exact Hframe].
  unfold raise, ret. repeat case_match; exact Hframe.
Qed.

(** C10: in a run that completes, every selected archive ([urls] is the
    selection) adds its month to at most one of [months_fetched] and
    [months_unchanged] (it carries one mark), every month of the two lists
    is the month of a selected archive,
    and [total_games] is the sum, over the archives marked as fetched, of
    the length of the [games] entry of the data written for that month (0
    when the entry is absent); so it is not negative. *)
Theorem run_accounts username out_dir max_months since cache_path w s w' :
  run_chesscom_ingest username out_dir max_months since cache_path w = (Ok s, w') ->
  exists (urls : list string) (marks : list mark),
    fst (select_archives default_client username max_months since w) = Ok urls
    /\ s_months_selected s = map _extract_year_month urls
    /\ List.length marks = List.length urls
    /\ s_months_fetched s = omap fetched_month (zip urls marks)
    /\ s_months_unchanged s = omap unchanged_month (zip urls marks)
    /\ (List.length (s_months_fetched s) + List.length (s_months_unchanged s)
        <= List.length urls)%nat
    /\ (forall year_month,
          In year_month (s_months_fetched s ++ s_months_unchanged s) ->
          In (Some year_month) (s_months_selected s))
    /\ Forall counted marks
    /\ writes w' = rev (omap (write_of out_dir username) (zip urls marks)) ++ writes w
    /\ s_total_games s = sum_Z (games_of <$> marks)
    /\ 0 <= s_total_games s.
Proof.
  unfold run_chesscom_ingest. cbv zeta. intros Hrun.
  apply bind_ok_inv in Hrun as (etags0 & w1 & Hload & Hrun).
  apply bind_ok_inv in Hrun as (urls & w2 & Hselect & Hrun).
  apply bind_ok_inv in Hrun as (st & w3 & Hloop & Hrun).
  apply bind_ok_inv in Hrun as ([] & w4 & Hsave & Hret).
  injection Hret as <- <-.
  apply ingest_loop_marks in Hloop as (marks & Hlen & Hf & Hu & Ht & Hc & Hw).
  cbn [months_fetched months_unchanged total_games app] in Hf, Hu, Ht.
  assert (w1 = w) as ->.
  { unfold load_etags in Hload. repeat case_match; simplify_eq; reflexivity. }
  assert (Hw2 : writes w2 = writes w).
  { pose proof (select_archives_frame default_client username max_months since w)
      as (_ & H & _). now rewrite Hselect in H. }
  assert (Hw4 : writes w4 = writes w3).
  { unfold save_etags in Hsave. repeat case_match; simplify_eq; reflexivity. }
  exists urls, marks. cbn [s_months_selected s_months_fetched s_months_unchanged
                            s_total_games].
  rewrite Hf, Hu, Ht, Hw4, Hw, Hw2, Hselect.
  repeat split; try assumption; try reflexivity.
  - etransitivity; [apply marks_are_exclusive|].
    rewrite length_zip. lia.
  - intros year_month Hin. apply in_app_or in Hin as [Hin|Hin].
    + eapply marked_month_selected; [|exact Hin].
      intros [url m] ym. unfold fetched_month. cbn. now destruct m.
    + eapply marked_month_selected; [|exact Hin].
      intros [url m] ym. unfold unchanged_month. cbn. now destruct m.
  - pose proof (sum_games_nonneg marks Hc). lia.
Qed.

End Program.

(** ** The reference codec reads back the stores it writes *)

Module RefJsonFacts.
Import RefJson.

Lemma parse_chars_escape_char (c : ascii) (acc rest : list ascii) :
  parse_chars acc (escape_char c ++ rest) = parse_chars (c :: acc) rest.
Proof.
  destruct c as [b0 b1 b2 b3 b4 b5 b6 b7].
  destruct b0, b1, b2, b3, b4, b5, b6, b7; reflexivity.
Qed.

Lemma parse_chars_escape (s acc rest : list ascii) :
  parse_chars acc (escape s ++ dq :: rest)
  = Some (string_of_list_ascii (rev acc ++ s), rest).
Proof.
  revert acc. induction s as [|c s IH]; intros acc.
  - cbn. now rewrite app_nil_r.
  - cbn [escape]. rewrite <- app_assoc, parse_chars_escape_char, IH.
    cbn [rev]. now rewrite <- app_assoc.
Qed.

Lemma parse_chars_quote (s : string) (rest : list ascii) :
  parse_chars [] (escape (list_ascii_of_string s) ++ dq :: rest) = Some (s, rest).
Proof.
  rewrite parse_chars_escape. cbn [rev app].
  now rewrite string_of_list_ascii_of_string.
Qed.

Lemma quote_app (s : string) (rest : list ascii) :
  quote s ++ rest = dq :: escape (list_ascii_of_string s) ++ dq :: rest.
Proof. unfold quote. cbn [app]. now rewrite <- app_assoc. Qed.

Lemma parse_value_quoted (fuel : nat) (s : string) (rest : list ascii) :
  parse_value (S fuel) (" "%char :: quote s ++ rest) = Some (JStr s, rest).
Proof.
  rewrite quote_app. cbn [parse_value skip_ws is_ws].
  change (is_ws " ") with true. change (is_ws dq) with false. cbv iota.
  change (Ascii.eqb dq dq) with true. cbv iota.
  now rewrite parse_chars_quote.
Qed.

Lemma parse_members_step (fuel : nat) (members : list (string * json))
    (k v : string) (tail : list ascii) :
  parse_members (S (S fuel)) members
    (nl :: indent 1 ++ flat_member (k, v) ++ tail)
  = match skip_ws tail with
    | ","%char :: r4 => parse_members (S fuel) ((k, JStr v) :: members) r4
    | "}"%char :: r4 => Some (JObj (list_to_map ((k, JStr v) :: members)), r4)
    | _ => None
    end.
Proof.
  unfold flat_member, member. cbn [fst snd indent app].
  rewrite <- !app_assoc, quote_app. cbn [app].
  remember (S fuel) as fuel1 eqn:Hfuel.
  cbn [parse_members skip_ws].
  change (is_ws nl) with true. change (is_ws " ") with true.
  change (is_ws dq) with false. cbv iota.
  change (Ascii.eqb dq dq) with true. cbv iota.
  rewrite parse_chars_quote. cbn [mbind option_bind skip_ws].
  change (is_ws ":") with false. cbv iota.
  subst fuel1. rewrite parse_value_quoted. cbn [mbind option_bind].
  reflexivity.
Qed.

Lemma skip_ws_separator (tail : list ascii) :
  skip_ws (member_separator ++ tail) = ","%char :: nl :: indent 1 ++ tail.
Proof. reflexivity. Qed.

Lemma skip_ws_closing (rest : list ascii) :
  skip_ws (nl :: "}"%char :: rest) = "}"%char :: rest.
Proof. reflexivity. Qed.

Lemma parse_members_flat (entries : list (string * string)) :
  forall (members : list (string * json)) (fuel : nat) (rest : list ascii),
    entries <> [] ->
    (List.length entries < fuel)%nat ->
    parse_members fuel members
      (nl :: indent 1 ++ join member_separator (map flat_member entries)
       ++ nl :: "}"%char :: rest)
    = Some (JObj (list_to_map (rev (prod_map id JStr <$> entries) ++ members)),
            rest).
Proof.
  induction entries as [|[k v] entries IH]; intros members fuel rest Hne Hfuel;
    [congruence|].
  destruct fuel as [|[|fuel]]; cbn [List.length] in Hfuel; try lia.
  cbn [map join]. destruct entries as [|kv entries].
  - cbn [map]. rewrite parse_members_step, skip_ws_closing. reflexivity.
  - change (map flat_member (kv :: entries))
      with (flat_member kv :: map flat_member entries) at 1.
    cbv iota. change (flat_member kv :: map flat_member entries)
      with (map flat_member (kv :: entries)).
    rewrite <- !app_assoc. rewrite parse_members_step, skip_ws_separator.
    rewrite IH by (cbn [List.length] in *; first [congruence | lia]).
    cbn [fmap list_fmap rev prod_map fst snd id].
    rewrite <- !app_assoc. reflexivity.
Qed.

Lemma length_join_flat (entries : list (string * string)) :
  (List.length entries
   <= List.length (join member_separator (map flat_member entries)))%nat.
Proof.
  induction entries as [|kv entries IH]; [reflexivity|].
  cbn [map join]. destruct entries as [|kv' entries].
  - unfold flat_member, member, quote. simpl. lia.
  - change (map flat_member (kv' :: entries))
      with (flat_member kv' :: map flat_member entries) at 1.
    cbv iota. change (flat_member kv' :: map flat_member entries)
      with (map flat_member (kv' :: entries)).
    rewrite !length_app. unfold flat_member at 1, member, quote.
    simpl List.length in *. lia.
Qed.

Lemma dump_flat (m : gmap string string) :
  dump 0 (JObj (JStr <$> m))
  = lines 0 "{" "}" (map flat_member (map_to_list m)).
Proof.
  cbn [dump]. f_equal.
  rewrite <- map_fmap_compose, map_to_list_fmap.
  induction (map_to_list m) as [|[k v] l IH]; [reflexivity|].
  cbn [fmap list_fmap map] in *. now rewrite IH.
Qed.

Lemma lines_cons (level : nat) (open close : ascii) (item : list ascii)
    (items : list (list ascii)) :
  lines level open close (item :: items)
  = open :: nl :: indent (S level)
    ++ join (","%char :: nl :: indent (S level)) (item :: items)
    ++ nl :: indent level ++ [close].
Proof. reflexivity. Qed.

Lemma parse_value_object (fuel : nat) (cs tail : list ascii) :
  cs = nl :: indent 1 ++ dq :: tail ->
  parse_value (S fuel) ("{"%char :: cs) = parse_members fuel [] cs.
Proof. intros ->. reflexivity. Qed.

(** The reference codec reads back every flat store that it writes. *)
Lemma reference_codec_round_trip (m : gmap string string) :
  json_load (json_dump (JObj (JStr <$> m))) = Some (JObj (JStr <$> m)).
Proof.
  unfold json_load, json_dump.
  rewrite list_ascii_of_string_of_list_ascii, dump_flat.
  destruct (map_to_list m) as [|kv entries] eqn:Hlist.
  - apply map_to_list_empty_iff in Hlist. subst m.
    rewrite fmap_empty. reflexivity.
  - cbn [map]. rewrite lines_cons.
    change (flat_member kv :: map flat_member entries)
      with (map flat_member (kv :: entries)).
    change (","%char :: nl :: indent 1) with member_separator.
    change (indent 0) with (@nil ascii). cbn [app].
    set (body := join member_separator (map flat_member (kv :: entries))).
    assert (Hbody : (List.length (kv :: entries) <= List.length body)%nat)
      by apply length_join_flat.
    assert (Hhead : exists tail, nl :: indent 1 ++ body ++ [nl; "}"%char]
                                 = nl :: indent 1 ++ dq :: tail).
    { subst body. cbn [map join]. destruct (map flat_member entries);
        unfold flat_member, member, quote; cbn [app fst]; eauto. }
    destruct Hhead as [tail Hhead].
    rewrite (parse_value_object _ _ tail Hhead).
    set (fuel := List.length ("{"%char :: nl :: indent 1 ++ body ++ [nl; "}"%char])).
    assert (Hfuel : (List.length (kv :: entries) < fuel)%nat).
    { subst fuel. cbn [List.length]. rewrite !length_app.
      cbn [List.length] in *. lia. }
    clearbody fuel. subst body.
    rewrite (parse_members_flat (kv :: entries) [] fuel []); [|congruence|exact Hfuel].
    cbn [skip_ws]. rewrite app_nil_r. do 2 f_equal.
    rewrite <- Hlist.
    rewrite <- (list_to_map_to_list m) at 2.
    rewrite <- list_to_map_fmap.
    assert (Hperm : rev (prod_map id JStr <$> map_to_list m)
                    ≡ₚ prod_map id JStr <$> map_to_list m)
      by (symmetry; apply Permutation_rev).
    apply list_to_map_proper; [|exact Hperm].
    rewrite Hperm.
    assert (Hkeys : forall l : list (string * string),
               (prod_map id JStr <$> l).*1 = l.*1).
    { induction l as [|[k v] l IH]; [reflexivity|]. cbn. now rewrite IH. }
    rewrite Hkeys. apply NoDup_fst_map_to_list.
Qed.

End RefJsonFacts.

(** With the reference codec, every mapping of strings to strings survives
    saving and loading. *)
Lemma reference_store_round_trip (path : string) (m : gmap string string)
    (w : world) :
  fs w !! path <> Some NoAccess ->
  exists w', save_etags RefJson.json_dump path (JStr <$> m) w = (Ok tt, w')
             /\ load_etags RefJson.json_load path w' = (Ok (JStr <$> m), w').
Proof.
  apply save_then_load, RefJsonFacts.reference_codec_round_trip.
Qed.

(** * The program on the scenarios *)

Import Scenario.

(** C3: with [max_months = 0] the window is the whole list, not its empty
    trailing slice: [archive_urls[-0:]] is [archive_urls[0:]]. *)
Theorem select_last_zero_keeps_everything (archive_urls : list string) :
  select_last 0 archive_urls = archive_urls.
Proof.
  unfold select_last, py_slice_from.
  destruct (Z.gtb_spec (Z.of_nat (List.length archive_urls)) 0); [|reflexivity].
  change (- 0 <? 0) with false. cbv iota.
  replace (Z.to_nat _) with 0%nat by lia. reflexivity.
Qed.

Example two_archives_selected_at_zero :
  select_last 0 [month_url "2024/01"; month_url "2024/02"] =
  [month_url "2024/01"; month_url "2024/02"].
Proof. reflexivity. Qed.

Example last_three_of_five :
  select_last 3 (list_sort ["m5"; "m1"; "m3"; "m2"; "m4"])%string
  = ["m3"; "m4"; "m5"]%string.
Proof. reflexivity. Qed.

(** C4: a 429 whose [Retry-After] is a negative integer ends the retries
    after one request, with the [ValueError] of [time.sleep]; the budget of
    five retries is not used and no rate-limit error is raised. *)
Theorem negative_retry_after_ends_retries :
  _request_with_retry throttled_negative no_jitter default_client
    "GET" index_url ∅ false empty_world
  = (Raise ValueError, World ∅ 1 0 [] [] []).
Proof. reflexivity. Qed.

Example throttled_budget :
  let out := _request_with_retry throttled no_jitter default_client
               "GET" index_url ∅ false empty_world in
  fst out = Raise (ChessComAPIError 429 RateLimitExceeded)
  /\ requests_sent (snd out) = 6%nat
  /\ slept (snd out) = [2; 2; 2; 2; 2]%Q.
Proof. split; [|split]; reflexivity. Qed.

(** C9: an archive of the index whose URL has no month makes the run fail
    with [TypeError] where the selected months are joined for printing; the
    warning is never printed and no summary is returned. *)
Theorem archive_without_month_aborts_run :
  run_chesscom_ingest RefJson.json_dump RefJson.json_load odd_index no_jitter
    "hikaru" "data/raw" 3 None cache_path empty_world
  = (Raise TypeError, World ∅ 1 0 [] [] []).
Proof. reflexivity. Qed.

(** The claim C1 fails: the body of the first month is not JSON, and the
    run ends with that error after two requests (the index and the first
    month), without asking for the second month or saving the store. *)
Lemma malformed_body_aborts_run :
  run_chesscom_ingest RefJson.json_dump RefJson.json_load malformed_body no_jitter
    "hikaru" "data/raw" 3 None cache_path empty_world
  = (Raise (ChessComClientError InvalidJSONResponse), World ∅ 2 0 [] [] []).
Proof. reflexivity. Qed.

Lemma failure_in_loop_aborts_run_witness :
  run_chesscom_ingest RefJson.json_dump RefJson.json_load malformed_body no_jitter
    "hikaru" "data/raw" 3 None cache_path empty_world
  = (Raise (ChessComClientError InvalidJSONResponse), World ∅ 2 0 [] [] []).
Proof.
  refine (failure_in_loop_aborts_run RefJson.json_dump RefJson.json_load
           malformed_body no_jitter "hikaru" "data/raw" 3 None cache_path
           empty_world ∅ empty_world
           [] (month_url "2024/01") [month_url "2024/02"]
           (World ∅ 1 0 [] [] []) (Progress ∅ [] [] 0) (World ∅ 1 0 [] [] [])
           (ChessComClientError InvalidJSONResponse) (World ∅ 2 0 [] [] [])
           _ _ _ _).
  - reflexivity.
  - reflexivity.
  - reflexivity.
  - reflexivity.
Defined.

(** The claim C2 fails: January was stored with v1, the service answers
    304 with the validator v2, and the store that the run saves still
    holds v1. *)
Lemma rotated_validator_is_not_stored :
  fst (run_chesscom_ingest RefJson.json_dump RefJson.json_load
         rotated_validator no_jitter
         "hikaru" "data/raw" 3 None cache_path january_cached)
  = Ok (Summary "hikaru" [Some "2024-01"] [] ["2024-01"] 0 "data/raw")%string
  /\ fst (load_etags RefJson.json_load cache_path
            (snd (run_chesscom_ingest RefJson.json_dump RefJson.json_load
                    rotated_validator no_jitter
                    "hikaru" "data/raw" 3 None cache_path january_cached)))
     = Ok {[ january := JStr "v1" ]}
  /\ ({[ january := JStr "v1" ]} : gmap string json) !! january
     <> Some (JStr "v2").
Proof.
  split; [reflexivity|]. split; [reflexivity|].
  vm_compute. discriminate.
Qed.

Lemma unchanged_leaves_store_alone_witness :
  exists st' w',
    process_archive RefJson.json_dump RefJson.json_load rotated_validator no_jitter
      default_client "data/raw" "hikaru" january
      (Progress (JStr <$> one_validator) [] [] 0) empty_world = (Ok st', w')
    /\ etags st' = etags (Progress (JStr <$> one_validator) [] [] 0)
    /\ months_unchanged st'
       = months_unchanged (Progress (JStr <$> one_validator) [] [] 0)
         ++ ["2024-01"]%string
    /\ months_fetched st'
       = months_fetched (Progress (JStr <$> one_validator) [] [] 0)
    /\ fs w' = fs empty_world /\ writes w' = writes empty_world.
Proof.
  refine (unchanged_leaves_store_alone RefJson.json_dump RefJson.json_load
           rotated_validator no_jitter default_client "data/raw" "hikaru"
           january "2024-01" (Progress (JStr <$> one_validator) [] [] 0)
           empty_world None (Some "v2"%string) (World ∅ 1 0 [] [] []) _ _).
  - reflexivity.
  - reflexivity.
Defined.

(** The claim C5 fails: a cache file that holds a JSON object with a number
    as a value is loaded as it is, not as the empty store. *)
Lemma object_with_number_is_loaded :
  fst (load_etags RefJson.json_load cache_path (world_with_cache "{'a': 1}"))
  = Ok {[ "a"%string := JNum 1 ]}
  /\ ({[ "a"%string := JNum 1 ]} : gmap string json) <> ∅.
Proof.
  split; [reflexivity|].
  intros H. apply (f_equal (fun d => d !! "a"%string)) in H. discriminate H.
Qed.

Lemma load_etags_degrades_to_empty_witness :
  exists store,
    load_etags RefJson.json_load cache_path (world_with_cache "['a', 1]")
    = (Ok store, world_with_cache "['a', 1]")
    /\ match fs (world_with_cache "['a', 1]") !! cache_path with
       | Some (Text content) =>
           match RefJson.json_load content with
           | Some (JObj d) => store = d
           | _ => store = ∅
           end
       | _ => store = ∅
       end.
Proof.
  refine (load_etags_degrades_to_empty RefJson.json_load cache_path
            (world_with_cache "['a', 1]") _).
  vm_compute. discriminate.
Defined.

Lemma store_round_trip_witness :
  (exists w',
     save_etags RefJson.json_dump cache_path (JStr <$> one_validator) empty_world
     = (Ok tt, w')
     /\ load_etags RefJson.json_load cache_path w' = (Ok (JStr <$> one_validator), w'))
  /\ (forall w0, fs w0 !! cache_path = None ->
                 load_etags RefJson.json_load cache_path w0 = (Ok ∅, w0))
  /\ (forall w0 content items,
        fs w0 !! cache_path = Some (Text content) ->
        RefJson.json_load content = Some (JArr items) ->
        load_etags RefJson.json_load cache_path w0 = (Ok ∅, w0)).
Proof.
  refine (store_round_trip RefJson.json_dump RefJson.json_load cache_path
            one_validator empty_world _ _).
  - reflexivity.
  - vm_compute. discriminate.
Defined.

Example missing_cache_is_empty :
  load_etags RefJson.json_load cache_path empty_world = (Ok ∅, empty_world).
Proof. reflexivity. Qed.

Example array_cache_is_empty :
  fst (load_etags RefJson.json_load cache_path (world_with_cache "['a', 1]")) = Ok ∅.
Proof. reflexivity. Qed.

Lemma backoff_grows_and_jitter_is_bounded_witness :
  (backoff_delay (backoff_base_seconds default_client) 0
   < backoff_delay (backoff_base_seconds default_client) 1)%Q
  /\ exists sleep_seconds w',
       _calculate_backoff no_jitter default_client 0 empty_world
       = (Ok sleep_seconds, w')
       /\ (backoff_delay (backoff_base_seconds default_client) 0
            - 0.25 * backoff_delay (backoff_base_seconds default_client) 0
           <= sleep_seconds
           <= backoff_delay (backoff_base_seconds default_client) 0
              + 0.25 * backoff_delay (backoff_base_seconds default_client) 0)%Q.
Proof.
  refine (backoff_grows_and_jitter_is_bounded no_jitter default_client 0 1
            empty_world _ _ _).
  - reflexivity.
  - lia.
  - split; [discriminate | reflexivity].
Defined.

Lemma validator_kept_without_new_one_witness :
  get_etag (etags (Progress (JStr <$> one_validator) [] ["2024-01"%string] 0)) january
  = get_etag (etags (Progress (JStr <$> one_validator) [] [] 0)) january
  /\ etags (Progress (JStr <$> one_validator) [] ["2024-01"%string] 0)
     = etags (Progress (JStr <$> one_validator) [] [] 0).
Proof.
  refine (validator_kept_without_new_one RefJson.json_dump RefJson.json_load
           plain_unchanged no_jitter default_client "data/raw" "hikaru" january
           (Progress (JStr <$> one_validator) [] [] 0) empty_world
           304 None None (World ∅ 1 0 [] [] [])
           (Progress (JStr <$> one_validator) [] ["2024-01"%string] 0)
           (World ∅ 1 0 [] [] [SaidUnchanged "2024-01"]) _ _ _).
  - reflexivity.
  - left. reflexivity.
  - reflexivity.
Defined.

Lemma run_accounts_witness :
  exists (urls : list string) (marks : list mark),
    fst (select_archives RefJson.json_load five_months no_jitter
           default_client "hikaru" 3 None empty_world) = Ok urls
    /\ s_months_selected five_months_summary = map _extract_year_month urls
    /\ List.length marks = List.length urls
    /\ s_months_fetched five_months_summary = omap fetched_month (zip urls marks)
    /\ s_months_unchanged five_months_summary
       = omap unchanged_month (zip urls marks)
    /\ (List.length (s_months_fetched five_months_summary)
        + List.length (s_months_unchanged five_months_summary)
        <= List.length urls)%nat
    /\ (forall year_month,
          In year_month (s_months_fetched five_months_summary
                         ++ s_months_unchanged five_months_summary) ->
          In (Some year_month) (s_months_selected five_months_summary))
    /\ Forall counted marks
    /\ writes (snd (run_chesscom_ingest RefJson.json_dump RefJson.json_load
                      five_months no_jitter
                      "hikaru" "data/raw" 3 None cache_path empty_world))
       = rev (omap (write_of "data/raw" "hikaru") (zip urls marks))
         ++ writes empty_world
    /\ s_total_games five_months_summary = sum_Z (games_of <$> marks)
    /\ 0 <= s_total_games five_months_summary.
Proof.
  refine (run_accounts RefJson.json_dump RefJson.json_load five_months no_jitter
            "hikaru" "data/raw" 3 None cache_path empty_world
            five_months_summary _ _).
  vm_compute. reflexivity.
Defined.

(** Scenarios of the specification. *)

Example one_retry_then_fresh :
  let out := get_month_archive RefJson.json_load flaky_once no_jitter
               default_client january None empty_world in
  fst out = Ok (200, Some (JObj {[ "games"%string := JArr [JNum 1; JNum 2; JNum 3] ]}),
                Some "v2"%string)
  /\ requests_sent (snd out) = 2%nat
  /\ List.length (slept (snd out)) = 1%nat.
Proof. split; [|split]; reflexivity. Qed.

Example fresh_fetch_updates_store :
  fst (load_etags RefJson.json_load cache_path
         (snd (run_chesscom_ingest RefJson.json_dump RefJson.json_load
                 five_months no_jitter
                 "hikaru" "data/raw" 3 None cache_path empty_world)))
  = Ok {[ month_url "2024/04" := JStr "v2" ]}.
Proof. vm_compute. reflexivity. Qed.
